(** * Whiskey Hollow: the attribute, progression and inventory engine

    A shallow embedding of [character.py] and [dice.py]: the [Character]
    class as a record, its methods as functions on that record, and the
    process-wide [random] module as a tape of raw draws threaded through a
    small state monad. *)

From Stdlib Require Import ZArith Lia Ascii String Sorting.Sorted
  Sorting.Permutation.
From stdpp Require Import base gmap strings list.

Open Scope Z_scope.

(** ** Strings: [str.lower] and the [in] operator on strings *)

Definition ascii_lower (ch : ascii) : ascii :=
  let n := nat_of_ascii ch in
  if (65 <=? n)%nat && (n <=? 90)%nat then ascii_of_nat (n + 32) else ch.

Fixpoint str_lower (s : string) : string :=
  match s with
  | EmptyString => EmptyString
  | String ch rest => String (ascii_lower ch) (str_lower rest)
  end.

Fixpoint str_prefixb (p s : string) : bool :=
  match p, s with
  | EmptyString, _ => true
  | String _ _, EmptyString => false
  | String a p', String b s' => Ascii.eqb a b && str_prefixb p' s'
  end.

(** [needle in hay] for Python strings. *)
Fixpoint str_contains (needle hay : string) : bool :=
  str_prefixb needle hay ||
  match hay with
  | EmptyString => false
  | String _ hay' => str_contains needle hay'
  end.

(** ** The [Character] record *)

Record character := mkCharacter {
  name : string;
  age : Z;
  level : Z;
  experience : Z;
  dollars : Z;
  skill_points : Z;
  vigor : Z;
  finesse : Z;
  smarts : Z;
  skills : gmap string Z;
  hit_points : Z;
  max_hit_points : Z;
  movement : Z;
  inventory : gmap string Z;
  base_inventory_slots : Z;
  bonus_inventory_slots : Z;
  weapon : string;
  armor : string;
  location : string
}.

(** [Character.__init__] *)
Definition new_character (nm : string) : character :=
  mkCharacter nm 0 1 0 0 0 0 0 0 ∅ 0 0 0 ∅ 0 0
    "Unarmed" "Clothes" "Whiskey Hollow".

(** Field assignments ([self.x = v]). *)
Definition set_inventory (c : character) (inv : gmap string Z) : character :=
  mkCharacter (name c) (age c) (level c) (experience c) (dollars c)
    (skill_points c) (vigor c) (finesse c) (smarts c) (skills c)
    (hit_points c) (max_hit_points c) (movement c) inv
    (base_inventory_slots c) (bonus_inventory_slots c)
    (weapon c) (armor c) (location c).

Definition set_bonus_inventory_slots (c : character) (b : Z) : character :=
  mkCharacter (name c) (age c) (level c) (experience c) (dollars c)
    (skill_points c) (vigor c) (finesse c) (smarts c) (skills c)
    (hit_points c) (max_hit_points c) (movement c) (inventory c)
    (base_inventory_slots c) b
    (weapon c) (armor c) (location c).

(** ** Inventory management methods *)

Definition get_total_inventory_slots (c : character) : Z :=
  base_inventory_slots c + bonus_inventory_slots c.

Definition _get_item_slot_usage (item_name : string) : Z :=
  let item_name_lower := str_lower item_name in
  if str_contains "rifle" item_name_lower || str_contains "shotgun" item_name_lower
  then 3
  else if str_contains "pistol" item_name_lower || str_contains "revolver" item_name_lower
  then 2
  else if str_contains "armor" item_name_lower || str_contains "vest" item_name_lower
  then 2
  else if str_contains "backpack" item_name_lower || str_contains "saddlebags" item_name_lower
  then 0
  else 1.

Definition get_used_inventory_slots (c : character) : Z :=
  map_fold (fun item_name quantity used_slots =>
              used_slots + _get_item_slot_usage item_name * quantity)
           0 (inventory c).

Definition get_available_inventory_slots (c : character) : Z :=
  get_total_inventory_slots c - get_used_inventory_slots c.

Definition can_add_item (c : character) (item_name : string) (quantity : Z) : bool :=
  let item_slots := _get_item_slot_usage item_name in
  let slots_needed := item_slots * quantity in
  slots_needed <=? get_available_inventory_slots c.

(** [add_item] returns the method's boolean result and the mutated [self]. *)
Definition add_item (c : character) (item_name : string) (quantity : Z)
  : bool * character :=
  if negb (can_add_item c item_name quantity) then (false, c) else
  let inv := inventory c in
  let c1 := match inv !! item_name with
            | Some q => set_inventory c (<[item_name := q + quantity]> inv)
            | None => set_inventory c (<[item_name := quantity]> inv)
            end in
  let c2 :=
    if str_contains "backpack" (str_lower item_name)
    then set_bonus_inventory_slots c1 (bonus_inventory_slots c1 + 5)
    else if str_contains "saddlebags" (str_lower item_name)
    then set_bonus_inventory_slots c1 (bonus_inventory_slots c1 + 8)
    else c1 in
  (true, c2).

Definition remove_item (c : character) (item_name : string) (quantity : Z)
  : bool * character :=
  match inventory c !! item_name with
  | None => (false, c)
  | Some held =>
      if held <? quantity then (false, c) else
      let c1 :=
        if str_contains "backpack" (str_lower item_name)
        then set_bonus_inventory_slots c (bonus_inventory_slots c - 5 * quantity)
        else if str_contains "saddlebags" (str_lower item_name)
        then set_bonus_inventory_slots c (bonus_inventory_slots c - 8 * quantity)
        else c in
      let left := held - quantity in
      let inv := inventory c1 in
      if left <=? 0
      then (true, set_inventory c1 (delete item_name inv))
      else (true, set_inventory c1 (<[item_name := left]> inv))
  end.

(** A fresh character with vigor 10 after [calculate_derived_stats]. *)
Definition sample_character : character :=
  mkCharacter "Tex" 20 1 0 50 0 10 10 10 ∅ 10 10 10 ∅ 10 0
    "Unarmed" "Clothes" "Whiskey Hollow".

(** ** [dice.py] *)

(** Python's [sorted(xs, reverse=True)] on integers. *)
Fixpoint insert_desc (x : Z) (l : list Z) : list Z :=
  match l with
  | [] => [x]
  | y :: l' => if y <? x then x :: l else y :: insert_desc x l'
  end.

Fixpoint sort_desc (l : list Z) : list Z :=
  match l with
  | [] => []
  | x :: l' => insert_desc x (sort_desc l')
  end.

(** Python slice bounds: a negative index counts from the end, and every
    bound is clamped to [0, len]. *)
Definition py_norm (len i : Z) : Z :=
  if i <? 0 then Z.max 0 (i + len) else Z.min i len.

(** [l[a:b]], with [b = None] for [l[a:]]. *)
Definition py_slice (l : list Z) (a : Z) (b : option Z) : list Z :=
  let n := Z.of_nat (length l) in
  let a' := py_norm n a in
  let b' := match b with Some b => py_norm n b | None => n end in
  firstn (Z.to_nat (b' - a')) (skipn (Z.to_nat a') l).

Fixpoint sum_list (l : list Z) : Z :=
  match l with [] => 0 | x :: l' => x + sum_list l' end.

Record roll_result := mkRollResult {
  result : Z;
  rolls : list Z;
  kept_rolls : list Z;
  dropped_rolls : list Z;
  total_before_modifier : Z;
  roll_modifier : Z
}.

(** The [ValueError] raised on a bad configuration. *)
Inductive dice_error := InvalidConfiguration (msg : string).

(** [roll_dice]; [roll_die i] is the total returned by the [i]-th call of
    [_roll_single_die] in the loop [for _ in range(num_dice)]. *)
Definition roll_dice (num_dice sides drop_lowest drop_highest modifier : Z)
  (roll_die : nat -> Z) : dice_error + roll_result :=
  if num_dice <=? 0 then inl (InvalidConfiguration "Number of dice must be positive") else
  if sides <=? 0 then inl (InvalidConfiguration "Number of sides must be positive") else
  if num_dice <=? drop_lowest + drop_highest
  then inl (InvalidConfiguration "Cannot drop more dice than rolled") else
  let all_rolls := map roll_die (seq 0 (Z.to_nat num_dice)) in
  let sorted_rolls := sort_desc all_rolls in
  let kept := if 0 <? drop_lowest
              then py_slice sorted_rolls drop_highest
                     (Some (Z.of_nat (length sorted_rolls) - drop_lowest))
              else py_slice sorted_rolls drop_highest None in
  let dropped :=
    (if 0 <? drop_highest then py_slice sorted_rolls 0 (Some drop_highest) else [])
    ++ (if 0 <? drop_lowest then py_slice sorted_rolls (- drop_lowest) None else []) in
  let total := sum_list kept in
  inr (mkRollResult (total + modifier) all_rolls kept dropped total modifier).

(** The [while True] loop of [_roll_single_die], run for at most [fuel]
    iterations: [draws k] is the [k]-th [random.randint(1, sides)]. [None]
    means the loop has not returned within [fuel] iterations. *)
Fixpoint roll_single_die_loop (fuel : nat) (sides : Z) (reroll_below : option Z)
  (exploding : bool) (draws : nat -> Z) (k : nat) (total : Z) : option Z :=
  match fuel with
  | O => None
  | S fuel' =>
      let roll := draws k in
      if match reroll_below with Some t => roll <=? t | None => false end
      then roll_single_die_loop fuel' sides reroll_below exploding draws (S k) total
      else
        let total' := total + roll in
        if exploding && (roll =? sides)
        then roll_single_die_loop fuel' sides reroll_below exploding draws (S k) total'
        else Some total'
  end.

Definition _roll_single_die (fuel : nat) (sides : Z) (reroll_below : option Z)
  (exploding : bool) (draws : nat -> Z) : option Z :=
  roll_single_die_loop fuel sides reroll_below exploding draws O 0.

(** ** The shared [random] source and [self], as a state monad *)

(** [tape k] is the [k]-th answer of the process-wide generator and
    [cursor] the number of answers consumed so far. *)
Record world := mkWorld {
  chr : character;
  tape : nat -> Z;
  cursor : nat
}.

Definition M (A : Type) : Type := world -> A * world.

Definition ret {A} (x : A) : M A := fun w => (x, w).
Definition bind {A B} (m : M A) (k : A -> M B) : M B :=
  fun w => let '(x, w') := m w in k x w'.

Notation "x <- m ;; k" := (bind m (fun x => k))
  (at level 100, m at next level, right associativity).
Notation "m ;;; k" := (bind m (fun _ => k))
  (at level 100, right associativity).

Definition get_self : M character := fun w => (chr w, w).
Definition put_self (c : character) : M unit :=
  fun w => (tt, mkWorld c (tape w) (cursor w)).
Definition modify_self (f : character -> character) : M unit :=
  c <- get_self ;; put_self (f c).

Definition advance (w : world) : world :=
  mkWorld (chr w) (tape w) (S (cursor w)).

(** [random.randint(lo, hi)]: the next answer, reduced into [lo..hi]. *)
Definition randint (lo hi : Z) : M Z :=
  fun w => (lo + tape w (cursor w) mod (hi - lo + 1), advance w).

(** [random._randbelow(n)]: an index in [0..n-1]. *)
Definition randbelow (n : nat) : M nat :=
  fun w => (Z.to_nat (tape w (cursor w) mod Z.of_nat n), advance w).

(** [random.choice(seq)] = [seq[_randbelow(len(seq))]]; [None] stands for
    the [IndexError] on an empty sequence. *)
Definition choice {A} (l : list A) : M (option A) :=
  i <- randbelow (length l) ;; ret (l !! i).

(** [for _ in range(n): body] *)
Fixpoint repeat_M (n : nat) (body : M unit) : M unit :=
  match n with
  | O => ret tt
  | S n' => body ;;; repeat_M n' body
  end.

(** [[f() for _ in range(n)]] *)
Fixpoint list_M {A} (n : nat) (f : M A) : M (list A) :=
  match n with
  | O => ret []
  | S n' => x <- f ;; xs <- list_M n' f ;; ret (x :: xs)
  end.

(** ** Attributes accessed by name ([getattr]/[setattr]) *)

Inductive attribute := Vigor | Finesse | Smarts.

#[global] Instance attribute_eq_dec : EqDecision attribute.
Proof. solve_decision. Defined.

Definition attributes : list attribute := [Vigor; Finesse; Smarts].

Definition getattr (c : character) (a : attribute) : Z :=
  match a with Vigor => vigor c | Finesse => finesse c | Smarts => smarts c end.

Definition setattr (c : character) (a : attribute) (v : Z) : character :=
  mkCharacter (name c) (age c) (level c) (experience c) (dollars c)
    (skill_points c)
    (match a with Vigor => v | _ => vigor c end)
    (match a with Finesse => v | _ => finesse c end)
    (match a with Smarts => v | _ => smarts c end)
    (skills c) (hit_points c) (max_hit_points c) (movement c) (inventory c)
    (base_inventory_slots c) (bonus_inventory_slots c)
    (weapon c) (armor c) (location c).

Definition set_skill_points (c : character) (sp : Z) : character :=
  mkCharacter (name c) (age c) (level c) (experience c) (dollars c)
    sp (vigor c) (finesse c) (smarts c) (skills c)
    (hit_points c) (max_hit_points c) (movement c) (inventory c)
    (base_inventory_slots c) (bonus_inventory_slots c)
    (weapon c) (armor c) (location c).

Definition set_skills (c : character) (sk : gmap string Z) (sp : Z) : character :=
  mkCharacter (name c) (age c) (level c) (experience c) (dollars c)
    sp (vigor c) (finesse c) (smarts c) sk
    (hit_points c) (max_hit_points c) (movement c) (inventory c)
    (base_inventory_slots c) (bonus_inventory_slots c)
    (weapon c) (armor c) (location c).

Definition get_attribute_modifier (attribute : Z) : Z := (attribute - 10) / 2.

(** ** Derived stats *)

Definition calculate_derived_stats (c : character) : character :=
  let mhp := (vigor c + finesse c + smarts c) / 3 in
  mkCharacter (name c) (age c) (level c) (experience c) (dollars c)
    (skill_points c) (vigor c) (finesse c) (smarts c) (skills c)
    mhp mhp ((vigor c + finesse c) / 2) (inventory c)
    (vigor c) (bonus_inventory_slots c)
    (weapon c) (armor c) (location c).

(** ** Age effects *)

Definition _apply_random_attribute_boost : M unit :=
  c <- get_self ;;
  let available_attributes :=
    List.filter (fun a => getattr c a <? 18) attributes in
  match available_attributes with
  | [] => ret tt
  | _ =>
      chosen <- choice available_attributes ;;
      match chosen with
      | None => ret tt
      | Some a => c <- get_self ;; put_self (setattr c a (getattr c a + 1))
      end
  end.

Definition _lose_random_attribute : M unit :=
  c <- get_self ;;
  let available_attributes :=
    List.filter (fun a => 3 <? getattr c a) attributes in
  match available_attributes with
  | [] => ret tt
  | _ =>
      chosen <- choice available_attributes ;;
      match chosen with
      | None => ret tt
      | Some a => c <- get_self ;; put_self (setattr c a (getattr c a - 1))
      end
  end.

Definition dice_for_vigor (v : Z) : Z := Z.max 1 (get_attribute_modifier v + 1).

Definition _make_vigor_test : M unit :=
  c <- get_self ;;
  let dice_to_roll := dice_for_vigor (vigor c) in
  rolls <- list_M (Z.to_nat dice_to_roll) (randint 1 6) ;;
  let successes := List.filter (fun r => 5 <=? r) rolls in
  match successes with
  | [] => _lose_random_attribute
  | _ => ret tt
  end.

Record age_entry := mkAgeEntry {
  entry_skill_points : Z;
  entry_attribute_boosts : Z;
  entry_vigor_tests : Z;
  entry_category : string
}.

(** The [if/elif] chain of [apply_age_effects], one row per branch:
    inclusive age range and the values the branch assigns. *)
Definition age_table : list (Z * Z * age_entry) :=
  [ (14, 22, mkAgeEntry 5 2 0 "Young");
    (23, 26, mkAgeEntry 5 3 0 "Prime (Early)");
    (27, 30, mkAgeEntry 6 2 0 "Prime");
    (31, 34, mkAgeEntry 7 1 1 "Prime (Late)");
    (35, 48, mkAgeEntry 9 0 3 "Experienced");
    (49, 52, mkAgeEntry 11 0 5 "Experienced (Elder)");
    (53, 56, mkAgeEntry 13 0 7 "Elder");
    (57, 57, mkAgeEntry 15 0 9 "Ancient") ].

Definition row_matches (a : Z) (row : Z * Z * age_entry) : bool :=
  let '(lo, hi, _) := row in (lo <=? a) && (a <=? hi).

(** The first branch of the chain whose condition holds. *)
Fixpoint lookup_age_entry (rows : list (Z * Z * age_entry)) (a : Z)
  : option age_entry :=
  match rows with
  | [] => None
  | (lo, hi, e) :: rows' =>
      if (lo <=? a) && (a <=? hi) then Some e else lookup_age_entry rows' a
  end.

Definition apply_age_effects : M unit :=
  c <- get_self ;;
  if negb ((14 <=? age c) && (age c <=? 57)) then ret tt else
  match lookup_age_entry age_table (age c) with
  | None => ret tt  (* unreachable: the guard keeps the age in 14..57 *)
  | Some e =>
      modify_self (fun c => set_skill_points c (skill_points c + entry_skill_points e)) ;;;
      (if 0 <? entry_attribute_boosts e
       then repeat_M (Z.to_nat (entry_attribute_boosts e)) _apply_random_attribute_boost
       else ret tt) ;;;
      (if 0 <? entry_vigor_tests e
       then repeat_M (Z.to_nat (entry_vigor_tests e)) _make_vigor_test
       else ret tt) ;;;
      modify_self calculate_derived_stats
  end.

(** ** Skill allocation *)

(** One answer to the allocation prompt: [?]/[help], a number, text that
    [int()] rejects ([ValueError]), or [KeyboardInterrupt]. *)
Inductive user_input :=
  | InHelp
  | InNumber (n : Z)
  | InNotANumber
  | InInterrupt.

(** [Prompting c]: still inside the [while] loop, waiting for input;
    [Finished c]: the method has returned; [Aborted c]: an exception the
    method does not catch has left it. *)
Inductive alloc_status :=
  | Prompting (c : character)
  | Finished (c : character)
  | Aborted (c : character).

(** The [while self.skill_points > 0] loop, fed the user's answers;
    [skills_list] are the catalog's keys in menu order. *)
Fixpoint allocation_loop (skills_list : list string) (inputs : list user_input)
  (c : character) : alloc_status :=
  if negb (0 <? skill_points c) then Finished c else
  match inputs with
  | [] => Prompting c
  | inp :: inputs' =>
      match inp with
      (* [_show_skill_descriptions] prints a footer whose markup closes
         [[dim yellow]] with [[/dim]]: rich raises [MarkupError], which is
         not a [ValueError], so it escapes the [try] before any change. *)
      | InHelp => Aborted c
      | InNotANumber => allocation_loop skills_list inputs' c
      | InInterrupt => Finished c
      | InNumber choice =>
          if choice =? 0 then
            if 0 <? skill_points c
            then allocation_loop skills_list inputs' c
            else Finished c
          else if (1 <=? choice) && (choice <=? Z.of_nat (length skills_list)) then
            match skills_list !! Z.to_nat (choice - 1) with
            | None => allocation_loop skills_list inputs' c
            | Some skill_key =>
                let current_level := default 0 (skills c !! skill_key) in
                if 3 <=? current_level
                then allocation_loop skills_list inputs' c
                else allocation_loop skills_list inputs'
                       (set_skills c (<[skill_key := current_level + 1]> (skills c))
                          (skill_points c - 1))
            end
          else allocation_loop skills_list inputs' c
      end
  end.

Definition allocate_skill_points (skills_list : list string)
  (inputs : list user_input) (c : character) : alloc_status :=
  if skill_points c <=? 0 then Finished c
  else allocation_loop skills_list inputs c.

(** ** [dice.py] convenience functions and [roll_attributes] *)

(** [roll_dice] with its defaults [reroll_below=None] and [exploding=False],
    on the shared random source: the configuration checks come first (no
    draw is taken when they fail), then each [_roll_single_die(sides)] is one
    [random.randint(1, sides)]. *)
Definition roll_plain_dice (num_dice sides drop_lowest drop_highest modifier : Z)
  : M (dice_error + roll_result) :=
  if (num_dice <=? 0) || (sides <=? 0) || (num_dice <=? drop_lowest + drop_highest)
  then ret (roll_dice num_dice sides drop_lowest drop_highest modifier (fun _ => 0))
  else
    faces <- list_M (Z.to_nat num_dice) (randint 1 sides) ;;
    ret (roll_dice num_dice sides drop_lowest drop_highest modifier
           (fun i => nth i faces 0)).

(** [roll_dice(...)['result']]; the [inl] case is the [ValueError] the
    fixed configurations below never raise. *)
Definition result_of (r : dice_error + roll_result) : Z :=
  match r with inr r => result r | inl _ => 0 end.

Definition roll_4d6_drop_lowest : M Z :=
  r <- roll_plain_dice 4 6 1 0 0 ;; ret (result_of r).

Definition roll_3d6 : M Z :=
  r <- roll_plain_dice 3 6 0 0 0 ;; ret (result_of r).

Definition roll_starting_money : M Z :=
  r <- roll_plain_dice 3 6 0 0 0 ;; ret (result_of r * 10).

Definition roll_with_advantage : M Z :=
  r <- roll_plain_dice 2 20 1 0 0 ;; ret (result_of r).

Definition roll_with_disadvantage : M Z :=
  r <- roll_plain_dice 2 20 0 1 0 ;; ret (result_of r).

Definition set_dollars (c : character) (d : Z) : character :=
  mkCharacter (name c) (age c) (level c) (experience c) d
    (skill_points c) (vigor c) (finesse c) (smarts c) (skills c)
    (hit_points c) (max_hit_points c) (movement c) (inventory c)
    (base_inventory_slots c) (bonus_inventory_slots c)
    (weapon c) (armor c) (location c).

(** [Character.roll_attributes] *)
Definition roll_attributes : M unit :=
  v <- roll_4d6_drop_lowest ;;
  modify_self (fun c => setattr c Vigor v) ;;;
  f <- roll_4d6_drop_lowest ;;
  modify_self (fun c => setattr c Finesse f) ;;;
  s <- roll_4d6_drop_lowest ;;
  modify_self (fun c => setattr c Smarts s) ;;;
  d <- roll_starting_money ;;
  modify_self (fun c => set_dollars c d) ;;;
  modify_self calculate_derived_stats.

(** ** [character_creation.py]: [AttributeRoller] *)

(** [AttributeRoller.roll_4d6_drop_lowest]: four [randint(1, 6)], sorted
    in reverse, the first three summed. *)
Definition attribute_roller_4d6_drop_lowest : M Z :=
  rolls <- list_M 4 (randint 1 6) ;;
  ret (sum_list (firstn 3 (sort_desc rolls))).

(** The [while True] loop of [roll_heroic_die] (inside
    [AttributeRoller.roll_attribute_set_heroic]), run for at most [fuel]
    iterations on the draws [draws k], [draws (S k)], ... *)
Fixpoint roll_heroic_die_loop (fuel : nat) (draws : nat -> Z) (k : nat) : option Z :=
  match fuel with
  | O => None
  | S fuel' =>
      let roll := draws k in
      if 3 <=? roll then Some roll else roll_heroic_die_loop fuel' draws (S k)
  end.

(** [AttributeRoller.roll_3d6]: the sum of three [randint(1, 6)]. *)
Definition attribute_roller_3d6 : M Z :=
  rolls <- list_M 3 (randint 1 6) ;;
  ret (sum_list rolls).

(** ** [to_dict] and [from_dict] *)

(** The values a save file holds: integers, strings, the [skills] and
    [inventory] dicts, and the list an older save file has for [inventory]. *)
Inductive pyval :=
  | PyInt (z : Z)
  | PyStr (s : string)
  | PyDict (m : gmap string Z)
  | PyStrList (l : list string).

(** [Character.to_dict], in the order of its keys. *)
Definition to_dict (c : character) : list (string * pyval) :=
  [("name", PyStr (name c)); ("age", PyInt (age c)); ("level", PyInt (level c));
   ("experience", PyInt (experience c)); ("dollars", PyInt (dollars c));
   ("skill_points", PyInt (skill_points c)); ("vigor", PyInt (vigor c));
   ("finesse", PyInt (finesse c)); ("smarts", PyInt (smarts c));
   ("hit_points", PyInt (hit_points c)); ("max_hit_points", PyInt (max_hit_points c));
   ("movement", PyInt (movement c)); ("skills", PyDict (skills c));
   ("inventory", PyDict (inventory c));
   ("base_inventory_slots", PyInt (base_inventory_slots c));
   ("bonus_inventory_slots", PyInt (bonus_inventory_slots c));
   ("weapon", PyStr (weapon c)); ("armor", PyStr (armor c));
   ("location", PyStr (location c))]%string.

Definition int_field_names : list string :=
  ["age"; "level"; "experience"; "dollars"; "skill_points"; "vigor"; "finesse";
   "smarts"; "hit_points"; "max_hit_points"; "movement"; "base_inventory_slots";
   "bonus_inventory_slots"]%string.

Definition str_field_names : list string := ["name"; "weapon"; "armor"; "location"]%string.

(** [setattr(self, key, value)] for an integer attribute. *)
Definition set_int_field (c : character) (key : string) (z : Z) : character :=
  mkCharacter (name c)
    (if String.eqb key "age" then z else age c)
    (if String.eqb key "level" then z else level c)
    (if String.eqb key "experience" then z else experience c)
    (if String.eqb key "dollars" then z else dollars c)
    (if String.eqb key "skill_points" then z else skill_points c)
    (if String.eqb key "vigor" then z else vigor c)
    (if String.eqb key "finesse" then z else finesse c)
    (if String.eqb key "smarts" then z else smarts c)
    (skills c)
    (if String.eqb key "hit_points" then z else hit_points c)
    (if String.eqb key "max_hit_points" then z else max_hit_points c)
    (if String.eqb key "movement" then z else movement c)
    (inventory c)
    (if String.eqb key "base_inventory_slots" then z else base_inventory_slots c)
    (if String.eqb key "bonus_inventory_slots" then z else bonus_inventory_slots c)
    (weapon c) (armor c) (location c).

(** [setattr(self, key, value)] for a string attribute. *)
Definition set_str_field (c : character) (key : string) (s : string) : character :=
  mkCharacter (if String.eqb key "name" then s else name c)
    (age c) (level c) (experience c) (dollars c) (skill_points c)
    (vigor c) (finesse c) (smarts c) (skills c)
    (hit_points c) (max_hit_points c) (movement c) (inventory c)
    (base_inventory_slots c) (bonus_inventory_slots c)
    (if String.eqb key "weapon" then s else weapon c)
    (if String.eqb key "armor" then s else armor c)
    (if String.eqb key "location" then s else location c).

(** One iteration of the loop of [from_dict]. The state is the character
    and, when the last [inventory] assigned was a list, that list (the
    character's own [inventory] dict is then replaced after the loop).
    [None] is a load this development does not model: a key that is not one
    of the nineteen data attributes (Python skips it when the object has no
    such attribute and rebinds it otherwise, e.g. a method), or a value of
    another type than the attribute's. *)
Definition from_dict_step (st : character * option (list string))
  (key : string) (value : pyval) : option (character * option (list string)) :=
  let '(c, legacy) := st in
  match value with
  | PyInt z =>
      if existsb (String.eqb key) int_field_names
      then Some (set_int_field c key z, legacy) else None
  | PyStr s =>
      if existsb (String.eqb key) str_field_names
      then Some (set_str_field c key s, legacy) else None
  | PyDict m =>
      if String.eqb key "skills" then Some (set_skills c m (skill_points c), legacy)
      else if String.eqb key "inventory" then Some (set_inventory c m, None)
      else None
  | PyStrList l =>
      if String.eqb key "inventory" then Some (c, Some l) else None
  end.

(** The legacy conversion: [for item in old_inventory: ...] counting each
    item into a fresh dict. *)
Definition list_to_counts (old_inventory : list string) : gmap string Z :=
  fold_left (fun inv item =>
               match inv !! item with
               | Some q => <[item := q + 1]> inv
               | None => <[item := 1]> inv
               end) old_inventory ∅.

(** [Character.from_dict] on [self]; [movement] is always an attribute, so
    the [hasattr] test of the movement check is true. *)
Definition from_dict (self : character) (data : list (string * pyval)) : option character :=
  match fold_left (fun acc kv => match acc with
                                 | Some st => from_dict_step st (fst kv) (snd kv)
                                 | None => None
                                 end) data (Some (self, None)) with
  | None => None
  | Some (c, legacy) =>
      let c := if movement c =? 0 then calculate_derived_stats c else c in
      match legacy with
      | Some old_inventory => Some (set_inventory c (list_to_counts old_inventory))
      | None => Some c
      end
  end.

(** ** Auxiliary definitions for the statements *)

(** The next [k] faces of a [sides]-sided die on the random source. *)
Definition next_faces (w : world) (sides : Z) (k : nat) : list Z :=
  map (fun p => 1 + tape w p mod sides) (seq (cursor w) k).

(** What [apply_age_effects] leaves alone: everything but the attributes,
    the skill points and the derived stats. *)
Definition age_frame (c : character) :=
  (name c, age c, level c, experience c, dollars c, skills c, inventory c,
   bonus_inventory_slots c, weapon c, armor c, location c).

(** The frame fields and the skill points of the world's character. *)
Definition frame_is (fr : string * Z * Z * Z * Z * gmap string Z * gmap string Z * Z *
                          string * string * string) (sp : Z) (w : world) : Prop :=
  age_frame (chr w) = fr /\ skill_points (chr w) = sp.

(** The character an allocation run leaves, finished or still prompting. *)
Definition alloc_char (st : alloc_status) : character :=
  match st with Prompting c => c | Finished c => c | Aborted c => c end.

(** The sum of all skill levels. *)
Definition total_levels (sk : gmap string Z) : Z :=
  map_fold (fun _ lvl acc => acc + lvl) 0 sk.

(** The items [add_item] and [remove_item] treat as capacity-expanding. *)
Definition is_container (item_name : string) : bool :=
  str_contains "backpack" (str_lower item_name) ||
  str_contains "saddlebags" (str_lower item_name).

Definition advance_by (w : world) (k : nat) : world :=
  mkWorld (chr w) (tape w) (cursor w + k).

(** The stats [calculate_derived_stats] writes. *)
Definition derived (c : character) : Z * Z * Z * Z :=
  (hit_points c, max_hit_points c, movement c, base_inventory_slots c).

Definition attrs_in_range (c : character) : Prop :=
  forall a, 3 <= getattr c a <= 18.

(** Running a sequence of actions one after the other. *)
Definition run_all (acts : list (M unit)) : M unit :=
  fold_right (fun m k => m ;;; k) (ret tt) acts.

(** * Inventory *)

(** C1: adding two backpacks raises [bonus_inventory_slots] by 5,
    not by 2 * 5: [add_item] adds the per-unit amount once, whatever the
    quantity. *)
Theorem add_item_two_backpacks_adds_five :
  add_item sample_character "Backpack" 2 =
  (true, set_bonus_inventory_slots
           (set_inventory sample_character {[ "Backpack" := 2 ]}) 5).
Proof. reflexivity. Qed.

(** C2: adding two backpacks and removing them again leaves
    [bonus_inventory_slots] at -5 instead of the original 0, since [add_item]
    adds 5 once and [remove_item] subtracts 5 * 2. *)
Theorem add_remove_two_backpacks_not_restored :
  remove_item (snd (add_item sample_character "Backpack" 2)) "Backpack" 2 =
  (true, set_bonus_inventory_slots sample_character (-5)) /\
  bonus_inventory_slots sample_character = 0.
Proof. split; reflexivity. Qed.

(** C10: for an item that is not a backpack or saddlebags, a successful
    [add_item] or [remove_item] changes only that item's entry of the
    inventory mapping, and a failed one changes nothing. *)
Theorem non_container_add_remove_frame (c : character) (item_name : string)
  (quantity : Z) :
  is_container item_name = false -> 1 <= quantity ->
  (forall ok c', add_item c item_name quantity = (ok, c') ->
     if ok
     then c' = set_inventory c
                 (<[item_name := default 0 (inventory c !! item_name) + quantity]>
                    (inventory c))
     else c' = c) /\
  (forall ok c', remove_item c item_name quantity = (ok, c') ->
     if ok
     then exists inv', c' = set_inventory c inv' /\
            forall k, k <> item_name -> inv' !! k = inventory c !! k
     else c' = c).
Proof.
  unfold is_container. intros Hc _.
  apply orb_false_iff in Hc as [Hb Hs].
  split.
  - intros ok c' Hadd. unfold add_item in Hadd.
    destruct (can_add_item c item_name quantity); simpl in Hadd.
    + rewrite Hb, Hs in Hadd.
      destruct (inventory c !! item_name) eqn:E; inversion Hadd; subst; simpl;
        f_equal; f_equal; lia.
    + inversion Hadd; reflexivity.
  - intros ok c' Hrem. unfold remove_item in Hrem.
    rewrite Hb, Hs in Hrem.
    destruct (inventory c !! item_name) as [held|] eqn:E.
    + destruct (held <? quantity).
      * inversion Hrem; reflexivity.
      * destruct (held - quantity <=? 0); inversion Hrem; subst; simpl.
        -- eexists; split; [reflexivity|].
           intros k Hk. apply lookup_delete_ne. congruence.
        -- eexists; split; [reflexivity|].
           intros k Hk. apply lookup_insert_ne. congruence.
    + inversion Hrem; reflexivity.
Qed.

Lemma non_container_add_remove_frame_witness :
  (is_container "Rope" = false /\ 1 <= 2) /\
  ((forall ok c', add_item sample_character "Rope" 2 = (ok, c') ->
     if ok
     then c' = set_inventory sample_character
                 (<[ "Rope" := default 0 (inventory sample_character !! "Rope") + 2]>
                    (inventory sample_character))
     else c' = sample_character) /\
  (forall ok c', remove_item sample_character "Rope" 2 = (ok, c') ->
     if ok
     then exists inv', c' = set_inventory sample_character inv' /\
            forall k, k <> "Rope" -> inv' !! k = inventory sample_character !! k
     else c' = sample_character)).
Proof.
  split; [split; [reflexivity | lia] |].
  apply non_container_add_remove_frame; [reflexivity | lia].
Defined.

(** * Dice *)

Lemma insert_desc_perm (x : Z) (l : list Z) :
  Permutation (x :: l) (insert_desc x l).
Proof.
  induction l as [|y l IH]; simpl; [reflexivity|].
  destruct (y <? x); [reflexivity|].
  rewrite perm_swap. constructor. exact IH.
Qed.

Lemma sort_desc_perm (l : list Z) : Permutation l (sort_desc l).
Proof.
  induction l as [|x l IH]; simpl; [constructor|].
  rewrite <- insert_desc_perm. constructor. exact IH.
Qed.

Lemma insert_desc_sorted (x : Z) (l : list Z) :
  Sorted Z.ge l -> Sorted Z.ge (insert_desc x l).
Proof.
  induction 1 as [|y l Hs IH Hhd]; simpl; [repeat constructor|].
  destruct (Z.ltb_spec y x).
  - constructor; [constructor; assumption | constructor; lia].
  - constructor; [exact IH|].
    destruct l as [|z l]; simpl; [constructor; lia|].
    inversion Hhd; subst.
    destruct (z <? x); constructor; lia.
Qed.

Lemma sort_desc_sorted (l : list Z) : Sorted Z.ge (sort_desc l).
Proof.
  induction l; simpl; [constructor | apply insert_desc_sorted; assumption].
Qed.

Lemma length_sort_desc (l : list Z) : length (sort_desc l) = length l.
Proof. symmetry. apply Permutation_length, sort_desc_perm. Qed.

(** C7: for nonnegative drop counts with [num_dice > 0],
    [sides > 0] and [drop_lowest + drop_highest < num_dice], [roll_dice]
    keeps [num_dice - drop_lowest - drop_highest] dice: the descending sort
    of the per-die totals without its first [drop_highest] and last
    [drop_lowest] entries; [result] is their sum plus [modifier]. It fails
    exactly when [num_dice <= 0], [sides <= 0] or
    [drop_lowest + drop_highest >= num_dice]. *)
Theorem roll_dice_kept_rolls (num_dice sides drop_lowest drop_highest modifier : Z)
  (roll_die : nat -> Z) :
  ((exists e, roll_dice num_dice sides drop_lowest drop_highest modifier roll_die = inl e)
   <-> num_dice <= 0 \/ sides <= 0 \/ num_dice <= drop_lowest + drop_highest) /\
  (0 < num_dice -> 0 < sides -> 0 <= drop_lowest -> 0 <= drop_highest ->
   drop_lowest + drop_highest < num_dice ->
   exists r,
     roll_dice num_dice sides drop_lowest drop_highest modifier roll_die = inr r /\
     rolls r = map roll_die (seq 0 (Z.to_nat num_dice)) /\
     Sorted Z.ge (sort_desc (rolls r)) /\ Permutation (rolls r) (sort_desc (rolls r)) /\
     Z.of_nat (length (kept_rolls r)) = num_dice - drop_lowest - drop_highest /\
     kept_rolls r = firstn (Z.to_nat (num_dice - drop_lowest - drop_highest))
                      (skipn (Z.to_nat drop_highest) (sort_desc (rolls r))) /\
     result r = sum_list (kept_rolls r) + modifier).
Proof.
  split.
  - unfold roll_dice. split.
    + intros [e He].
      destruct (Z.leb_spec num_dice 0); [lia|].
      destruct (Z.leb_spec sides 0); [lia|].
      destruct (Z.leb_spec num_dice (drop_lowest + drop_highest)); [lia|].
      discriminate.
    + intros H.
      destruct (Z.leb_spec num_dice 0); [eauto|].
      destruct (Z.leb_spec sides 0); [eauto|].
      destruct (Z.leb_spec num_dice (drop_lowest + drop_highest)); [eauto|].
      lia.
  - intros Hn Hs Hl Hh Hsum. unfold roll_dice.
    destruct (Z.leb_spec num_dice 0); [lia|].
    destruct (Z.leb_spec sides 0); [lia|].
    destruct (Z.leb_spec num_dice (drop_lowest + drop_highest)); [lia|].
    set (all := map roll_die (seq 0 (Z.to_nat num_dice))).
    assert (Hlen : Z.of_nat (length (sort_desc all)) = num_dice).
    { rewrite length_sort_desc. subst all.
      rewrite length_map, length_seq. lia. }
    assert (Hkept :
      (if 0 <? drop_lowest
       then py_slice (sort_desc all) drop_highest
              (Some (Z.of_nat (length (sort_desc all)) - drop_lowest))
       else py_slice (sort_desc all) drop_highest None) =
      firstn (Z.to_nat (num_dice - drop_lowest - drop_highest))
        (skipn (Z.to_nat drop_highest) (sort_desc all))).
    { unfold py_slice, py_norm. rewrite Hlen.
      destruct (Z.ltb_spec 0 drop_lowest);
        destruct (Z.ltb_spec drop_highest 0); try lia;
        try (destruct (Z.ltb_spec (num_dice - drop_lowest) 0); try lia);
        f_equal; f_equal; lia. }
    eexists; split; [reflexivity|]. simpl.
    split; [reflexivity|].
    split; [apply sort_desc_sorted|].
    split; [apply sort_desc_perm|].
    rewrite Hkept. split; [|split; reflexivity].
    rewrite length_firstn, length_skipn.
    rewrite Nat2Z.inj_min, Nat2Z.inj_sub, Hlen by lia. lia.
Qed.

Lemma roll_dice_kept_rolls_witness :
  (0 < 4 /\ 0 < 6 /\ 0 <= 1 /\ 0 <= 0 /\ 1 + 0 < 4) /\
  exists r,
     roll_dice 4 6 1 0 0 (fun i => Z.of_nat i + 1) = inr r /\
     rolls r = map (fun i => Z.of_nat i + 1) (seq 0 (Z.to_nat 4)) /\
     Sorted Z.ge (sort_desc (rolls r)) /\ Permutation (rolls r) (sort_desc (rolls r)) /\
     Z.of_nat (length (kept_rolls r)) = 4 - 1 - 0 /\
     kept_rolls r = firstn (Z.to_nat (4 - 1 - 0))
                      (skipn (Z.to_nat 0) (sort_desc (rolls r))) /\
     result r = sum_list (kept_rolls r) + 0.
Proof.
  split; [lia|].
  apply (roll_dice_kept_rolls 4 6 1 0 0 (fun i => Z.of_nat i + 1)); lia.
Defined.

(** C7: with [drop_lowest = -1] the configuration passes every check of
    [roll_dice], yet one die is kept, not [1 - (-1) - 0 = 2]. *)
Lemma roll_dice_negative_drop_lowest :
  exists r, roll_dice 1 6 (-1) 0 0 (fun _ => 3) = inr r /\
    Z.of_nat (length (kept_rolls r)) = 1 /\
    Z.of_nat (length (kept_rolls r)) <> 1 - (-1) - 0.
Proof. eexists; split; [reflexivity|]. simpl. lia. Qed.

(** C9: with [sides >= 1] and [reroll_below >= sides], every face
    [random.randint(1, sides)] can return is rerolled, so the loop of
    [_roll_single_die] returns within no number of iterations, whatever the
    draws. *)
Theorem roll_single_die_reroll_diverges (fuel : nat) (sides t : Z)
  (exploding : bool) (draws : nat -> Z) :
  1 <= sides -> sides <= t ->
  (forall k, 1 <= draws k <= sides) ->
  _roll_single_die fuel sides (Some t) exploding draws = None.
Proof.
  intros Hs Ht Hd. unfold _roll_single_die.
  generalize O as k. generalize 0 as total.
  induction fuel as [|fuel IH]; intros total k; simpl; [reflexivity|].
  specialize (Hd k).
  destruct (Z.leb_spec (draws k) t); [apply IH | lia].
Qed.

Lemma roll_single_die_reroll_diverges_witness :
  (1 <= 6 /\ 6 <= 6 /\ (forall k : nat, 1 <= (fun k => Z.of_nat (k mod 6) + 1) k <= 6)) /\
  _roll_single_die 1000 6 (Some 6) true (fun k => Z.of_nat (k mod 6) + 1) = None.
Proof.
  assert (Hd : forall k : nat, 1 <= (fun k => Z.of_nat (k mod 6) + 1) k <= 6).
  { intros k. simpl. pose proof (Nat.mod_upper_bound k 6). lia. }
  split; [split; [lia | split; [lia | exact Hd]] |].
  apply roll_single_die_reroll_diverges; [lia | lia | exact Hd].
Defined.

(** * Age effects *)

(** Splits every [x <=? y] of the goal, closing the cases the hypotheses
    rule out. *)
Ltac split_leb :=
  repeat match goal with
         | |- context [?x <=? ?y] =>
             destruct (Z.leb_spec x y); try (exfalso; lia)
         end.

(** C4: outside 14..57 [apply_age_effects] changes nothing at all (no
    field, no draw of the random source); every age in 14..57 is matched by
    exactly one branch of the age chain, and no age outside by any. *)
Theorem age_table_exact_cover :
  (forall w, age (chr w) < 14 \/ 57 < age (chr w) -> apply_age_effects w = (tt, w)) /\
  (forall a, 14 <= a <= 57 -> length (List.filter (row_matches a) age_table) = 1%nat) /\
  (forall a, a < 14 \/ 57 < a -> List.filter (row_matches a) age_table = []).
Proof.
  split; [|split].
  - intros w Hw. unfold apply_age_effects, bind, get_self.
    destruct (Z.leb_spec 14 (age (chr w))); destruct (Z.leb_spec (age (chr w)) 57);
      try lia; reflexivity.
  - intros a Ha. unfold age_table, row_matches. simpl. split_leb; reflexivity.
  - intros a Ha. unfold age_table, row_matches. simpl.
    destruct Ha; split_leb; reflexivity.
Qed.

Lemma age_table_exact_cover_witness :
  (age (chr (mkWorld sample_character (fun _ => 0) O)) = 20) /\
  length (List.filter (row_matches 40) age_table) = 1%nat.
Proof.
  split; [reflexivity|].
  apply (proj1 (proj2 age_table_exact_cover)). lia.
Defined.

(** ** Actions preserving a property of the world *)

Definition preserves (P : world -> Prop) (m : M unit) : Prop :=
  forall w, P w -> P (snd (m w)).

Lemma preserves_ret (P : world -> Prop) : preserves P (ret tt).
Proof. intros w H. exact H. Qed.

Lemma preserves_seq (P : world -> Prop) (m k : M unit) :
  preserves P m -> preserves P k -> preserves P (m ;;; k).
Proof.
  intros Hm Hk w H. unfold bind.
  specialize (Hm w H). destruct (m w) as [[] w']. apply Hk, Hm.
Qed.

Lemma preserves_repeat (P : world -> Prop) (n : nat) (m : M unit) :
  preserves P m -> preserves P (repeat_M n m).
Proof.
  intros Hm. induction n; simpl; [apply preserves_ret | apply preserves_seq; assumption].
Qed.

Lemma preserves_run_all (P : world -> Prop) (acts : list (M unit)) :
  Forall (preserves P) acts -> preserves P (run_all acts).
Proof.
  induction 1; simpl; [apply preserves_ret | apply preserves_seq; assumption].
Qed.

Create HintDb preserves.
Global Hint Resolve preserves_ret preserves_seq preserves_repeat : preserves.

Lemma getattr_setattr (c : character) (a b : attribute) (v : Z) :
  getattr (setattr c a v) b = if decide (a = b) then v else getattr c b.
Proof. destruct a, b; reflexivity. Qed.

Lemma derived_setattr_other (c : character) (a : attribute) (v : Z) :
  (hit_points (setattr c a v), max_hit_points (setattr c a v),
   movement (setattr c a v), base_inventory_slots (setattr c a v)) =
  (hit_points c, max_hit_points c, movement c, base_inventory_slots c).
Proof. destruct a; reflexivity. Qed.

Lemma in_filter_attr (f : attribute -> bool) (l : list attribute) (i : nat) (a : attribute) :
  List.filter f l !! i = Some a -> f a = true.
Proof.
  intros H. apply list_elem_of_lookup_2, list_elem_of_In in H.
  apply filter_In in H. tauto.
Qed.

Lemma randbelow_lt (w : world) (n : nat) :
  (0 < n)%nat -> (fst (randbelow n w) < n)%nat.
Proof.
  intros Hn. simpl.
  pose proof (Z.mod_pos_bound (tape w (cursor w)) (Z.of_nat n)) as B.
  lia.
Qed.

(** The effect of [_apply_random_attribute_boost]. *)
Lemma boost_spec (w : world) :
  _apply_random_attribute_boost w =
  match List.filter (fun a => getattr (chr w) a <? 18) attributes with
  | [] => (tt, w)
  | avail =>
      match avail !! fst (randbelow (length avail) w) with
      | None => (tt, advance w)
      | Some a => (tt, mkWorld (setattr (chr w) a (getattr (chr w) a + 1))
                         (tape w) (S (cursor w)))
      end
  end.
Proof.
  unfold _apply_random_attribute_boost, bind, get_self.
  destruct (List.filter _ _) as [|a l]; [reflexivity|].
  unfold choice, randbelow, bind, ret, put_self. simpl.
  destruct (_ !! _); reflexivity.
Qed.

(** The effect of [_lose_random_attribute]. *)
Lemma lose_spec (w : world) :
  _lose_random_attribute w =
  match List.filter (fun a => 3 <? getattr (chr w) a) attributes with
  | [] => (tt, w)
  | avail =>
      match avail !! fst (randbelow (length avail) w) with
      | None => (tt, advance w)
      | Some a => (tt, mkWorld (setattr (chr w) a (getattr (chr w) a - 1))
                         (tape w) (S (cursor w)))
      end
  end.
Proof.
  unfold _lose_random_attribute, bind, get_self.
  destruct (List.filter _ _) as [|a l]; [reflexivity|].
  unfold choice, randbelow, bind, ret, put_self. simpl.
  destruct (_ !! _); reflexivity.
Qed.

Lemma list_M_randint (k : nat) (w : world) :
  list_M k (randint 1 6) w =
  (map (fun p => 1 + tape w p mod 6) (seq (cursor w) k), advance_by w k).
Proof.
  revert w. induction k as [|k IH]; intros w.
  - unfold advance_by. destruct w; simpl. rewrite Nat.add_0_r. reflexivity.
  - simpl list_M. unfold bind at 1. unfold randint at 1.
    change (6 - 1 + 1) with 6.
    unfold bind, ret. rewrite IH.
    unfold advance_by, advance. simpl. do 3 f_equal. lia.
Qed.

Lemma vigor_test_spec (w : world) :
  _make_vigor_test w =
  let k := Z.to_nat (dice_for_vigor (vigor (chr w))) in
  match List.filter (fun r => 5 <=? r)
          (map (fun p => 1 + tape w p mod 6) (seq (cursor w) k)) with
  | [] => _lose_random_attribute (advance_by w k)
  | _ => (tt, advance_by w k)
  end.
Proof.
  unfold _make_vigor_test. unfold bind at 1. unfold get_self. cbv zeta.
  unfold bind. rewrite list_M_randint.
  destruct (List.filter _ _); reflexivity.
Qed.

Lemma if_repeat (b : Z) (m : M unit) :
  (if 0 <? b then repeat_M (Z.to_nat b) m else ret tt) = repeat_M (Z.to_nat b) m.
Proof.
  destruct (Z.ltb_spec 0 b); [reflexivity|].
  replace (Z.to_nat b) with O by lia. reflexivity.
Qed.

(** [apply_age_effects] for an age the guard lets through. *)
Lemma apply_age_effects_in_range (w : world) (e : age_entry) :
  14 <= age (chr w) <= 57 ->
  lookup_age_entry age_table (age (chr w)) = Some e ->
  apply_age_effects w =
  (modify_self (fun c => set_skill_points c (skill_points c + entry_skill_points e)) ;;;
   repeat_M (Z.to_nat (entry_attribute_boosts e)) _apply_random_attribute_boost ;;;
   repeat_M (Z.to_nat (entry_vigor_tests e)) _make_vigor_test ;;;
   modify_self calculate_derived_stats) w.
Proof.
  intros Ha He. unfold apply_age_effects. unfold bind at 1. unfold get_self.
  cbv beta iota zeta.
  destruct (Z.leb_spec 14 (age (chr w))); [|lia].
  destruct (Z.leb_spec (age (chr w)) 57); [|lia].
  simpl negb. cbv iota. rewrite He. rewrite !if_repeat. reflexivity.
Qed.

Lemma apply_age_effects_out_of_range (w : world) :
  lookup_age_entry age_table (age (chr w)) = None -> apply_age_effects w = (tt, w).
Proof.
  intros He. unfold apply_age_effects. unfold bind at 1. unfold get_self.
  cbv beta iota. rewrite He.
  destruct (negb _); reflexivity.
Qed.

(** ** Attribute bounds *)

Definition in_range_world (w : world) : Prop := attrs_in_range (chr w).

Lemma boost_in_range : preserves in_range_world _apply_random_attribute_boost.
Proof.
  intros w H. rewrite boost_spec.
  destruct (List.filter _ _) as [|x l] eqn:E; [exact H|].
  cbv beta iota zeta.
  match goal with
  | |- context [(x :: l) !! ?i] => destruct ((x :: l) !! i) as [a|] eqn:Ea; [|exact H]
  end.
  rewrite <- E in Ea. apply in_filter_attr, Z.ltb_lt in Ea.
  intros b. simpl. rewrite getattr_setattr.
  destruct (decide (a = b)); subst; [specialize (H b); lia | apply H].
Qed.

Lemma lose_in_range : preserves in_range_world _lose_random_attribute.
Proof.
  intros w H. rewrite lose_spec.
  destruct (List.filter _ _) as [|x l] eqn:E; [exact H|].
  cbv beta iota zeta.
  match goal with
  | |- context [(x :: l) !! ?i] => destruct ((x :: l) !! i) as [a|] eqn:Ea; [|exact H]
  end.
  rewrite <- E in Ea. apply in_filter_attr, Z.ltb_lt in Ea.
  intros b. simpl. rewrite getattr_setattr.
  destruct (decide (a = b)); subst; [specialize (H b); lia | apply H].
Qed.

Lemma vigor_test_in_range : preserves in_range_world _make_vigor_test.
Proof.
  intros w H. rewrite vigor_test_spec. cbv zeta.
  destruct (List.filter _ _); [apply lose_in_range|]; exact H.
Qed.

Lemma modify_in_range (f : character -> character) :
  (forall c a, getattr (f c) a = getattr c a) ->
  preserves in_range_world (modify_self f).
Proof. intros Hf w H a. simpl. rewrite Hf. apply H. Qed.

Lemma apply_age_effects_in_range_attrs : preserves in_range_world apply_age_effects.
Proof.
  intros w H.
  destruct (lookup_age_entry age_table (age (chr w))) as [e|] eqn:He.
  - destruct (Z.leb_spec 14 (age (chr w))).
    + destruct (Z.leb_spec (age (chr w)) 57).
      * rewrite (apply_age_effects_in_range w e) by (auto; lia).
        match goal with
        | |- in_range_world (snd (?m w)) =>
            enough (Hp : preserves in_range_world m) by exact (Hp w H)
        end.
        repeat apply preserves_seq;
          auto using boost_in_range, vigor_test_in_range with preserves;
          apply modify_in_range; intros c []; reflexivity.
      * unfold apply_age_effects, bind, get_self.
        destruct (Z.leb_spec 14 (age (chr w))); destruct (Z.leb_spec (age (chr w)) 57);
          try lia; exact H.
    + unfold apply_age_effects, bind, get_self.
      destruct (Z.leb_spec 14 (age (chr w))); try lia; exact H.
  - rewrite apply_age_effects_out_of_range by exact He. exact H.
Qed.

(** C6: starting from attributes in 3..18, any sequence of attribute
    boosts, attribute losses, vigor tests and whole aging events keeps every
    attribute in 3..18. *)
Theorem attributes_stay_in_bounds (acts : list (M unit)) (w : world) :
  Forall (fun m => m = _apply_random_attribute_boost \/ m = _lose_random_attribute \/
                   m = _make_vigor_test \/ m = apply_age_effects) acts ->
  attrs_in_range (chr w) ->
  attrs_in_range (chr (snd (run_all acts w))).
Proof.
  intros Hacts Hw.
  apply (preserves_run_all in_range_world); [|exact Hw].
  eapply Forall_impl; [exact Hacts|].
  intros m [->|[->|[->| ->]]].
  - apply boost_in_range.
  - apply lose_in_range.
  - apply vigor_test_in_range.
  - apply apply_age_effects_in_range_attrs.
Qed.

Definition sample_world : world := mkWorld sample_character (fun _ => 0) O.

Lemma attributes_stay_in_bounds_witness :
  attrs_in_range (chr sample_world) /\
  attrs_in_range (chr (snd (run_all [_apply_random_attribute_boost; _make_vigor_test;
                                     _lose_random_attribute; apply_age_effects]
                              sample_world))).
Proof.
  assert (H0 : attrs_in_range (chr sample_world)) by (intros []; simpl; lia).
  split; [exact H0|].
  apply attributes_stay_in_bounds; [|exact H0].
  repeat constructor; tauto.
Defined.

(** ** Derived stats *)

Definition derived_is (d : Z * Z * Z * Z) (w : world) : Prop := derived (chr w) = d.

Lemma derived_setattr (c : character) (a : attribute) (v : Z) :
  derived (setattr c a v) = derived c.
Proof. destruct a; reflexivity. Qed.

Lemma boost_derived (d : Z * Z * Z * Z) :
  preserves (derived_is d) _apply_random_attribute_boost.
Proof.
  intros w H. rewrite boost_spec.
  destruct (List.filter _ _) as [|x l]; [exact H|].
  cbv beta iota zeta.
  match goal with
  | |- context [(x :: l) !! ?i] => destruct ((x :: l) !! i) as [a|]; [|exact H]
  end.
  unfold derived_is. simpl. rewrite derived_setattr. exact H.
Qed.

Lemma lose_derived (d : Z * Z * Z * Z) :
  preserves (derived_is d) _lose_random_attribute.
Proof.
  intros w H. rewrite lose_spec.
  destruct (List.filter _ _) as [|x l]; [exact H|].
  cbv beta iota zeta.
  match goal with
  | |- context [(x :: l) !! ?i] => destruct ((x :: l) !! i) as [a|]; [|exact H]
  end.
  unfold derived_is. simpl. rewrite derived_setattr. exact H.
Qed.

Lemma vigor_test_derived (d : Z * Z * Z * Z) :
  preserves (derived_is d) _make_vigor_test.
Proof.
  intros w H. rewrite vigor_test_spec. cbv zeta.
  destruct (List.filter _ _); [apply lose_derived|]; exact H.
Qed.

Lemma seq_split_last (a b c d : M unit) (w : world) :
  (a ;;; b ;;; c ;;; d) w = ((a ;;; b ;;; c) ;;; d) w.
Proof.
  unfold bind.
  destruct (a w) as [[] w1]. destruct (b w1) as [[] w2].
  destruct (c w2) as [[] w3]. reflexivity.
Qed.

(** C5: [calculate_derived_stats] sets [hit_points = max_hit_points =
    (vigor+finesse+smarts)/3], [movement = (vigor+finesse)/2] and
    [base_inventory_slots = vigor] and leaves the attributes alone; in an
    aging event for an age in 14..57 the derived stats are untouched by the
    skill grant, the boosts and the vigor tests, and computed once at the
    end from the attributes these left. *)
Theorem derived_stats_after_aging :
  (forall c,
     let d := calculate_derived_stats c in
     hit_points d = max_hit_points d /\
     max_hit_points d = (vigor c + finesse c + smarts c) / 3 /\
     movement d = (vigor c + finesse c) / 2 /\
     base_inventory_slots d = vigor c /\
     (forall a, getattr d a = getattr c a)) /\
  (forall w, 14 <= age (chr w) <= 57 ->
     exists e, lookup_age_entry age_table (age (chr w)) = Some e /\
     let w_mid :=
       snd ((modify_self (fun c => set_skill_points c (skill_points c + entry_skill_points e)) ;;;
             repeat_M (Z.to_nat (entry_attribute_boosts e)) _apply_random_attribute_boost ;;;
             repeat_M (Z.to_nat (entry_vigor_tests e)) _make_vigor_test) w) in
     derived (chr w_mid) = derived (chr w) /\
     snd (apply_age_effects w) =
       mkWorld (calculate_derived_stats (chr w_mid)) (tape w_mid) (cursor w_mid)).
Proof.
  split.
  - intros c. cbv zeta. repeat split; try reflexivity; intros []; reflexivity.
  - intros w Hw.
    destruct (lookup_age_entry age_table (age (chr w))) as [e|] eqn:He.
    + exists e. split; [reflexivity|]. cbv zeta. split.
      * set (d := derived (chr w)).
        change (derived_is d (snd
          ((modify_self (fun c => set_skill_points c (skill_points c + entry_skill_points e)) ;;;
            repeat_M (Z.to_nat (entry_attribute_boosts e)) _apply_random_attribute_boost ;;;
            repeat_M (Z.to_nat (entry_vigor_tests e)) _make_vigor_test) w))).
        assert (Hp : preserves (derived_is d)
          (modify_self (fun c => set_skill_points c (skill_points c + entry_skill_points e)) ;;;
           repeat_M (Z.to_nat (entry_attribute_boosts e)) _apply_random_attribute_boost ;;;
           repeat_M (Z.to_nat (entry_vigor_tests e)) _make_vigor_test)).
        { apply preserves_seq; [|apply preserves_seq].
          - intros w' H'. exact H'.
          - apply preserves_repeat, boost_derived.
          - apply preserves_repeat, vigor_test_derived. }
        apply Hp. reflexivity.
      * rewrite (apply_age_effects_in_range w e Hw He), seq_split_last.
        unfold bind at 1.
        destruct ((modify_self _ ;;; _ ;;; _) w) as [[] w_mid].
        reflexivity.
    + exfalso. unfold age_table in He. simpl in He.
      repeat match type of He with
             | context [?x <=? ?y] => destruct (Z.leb_spec x y); simpl in He; try lia
             end; discriminate.
Qed.

Lemma derived_stats_after_aging_witness :
  14 <= age (chr sample_world) <= 57 /\
  exists e, lookup_age_entry age_table (age (chr sample_world)) = Some e.
Proof.
  assert (Ha : 14 <= age (chr sample_world) <= 57) by (simpl; lia).
  split; [exact Ha|].
  destruct ((proj2 derived_stats_after_aging) sample_world Ha) as [e [He _]].
  exists e. exact He.
Defined.

(** ** Vigor tests *)

Lemma filter_five_nil (l : list Z) :
  Forall (fun f => 1 <= f <= 6) l ->
  (List.filter (fun r => 5 <=? r) l = [] <->
   existsb (fun f => (f =? 5) || (f =? 6)) l = false).
Proof.
  induction 1 as [|f l Hf Hl IH]; simpl; [tauto|].
  destruct (Z.leb_spec 5 f).
  - assert (Hf' : ((f =? 5) || (f =? 6)) = true).
    { apply orb_true_iff. destruct (Z.eq_dec f 5); [left|right]; apply Z.eqb_eq; lia. }
    rewrite Hf'. simpl. split; discriminate.
  - assert (Hf' : ((f =? 5) || (f =? 6)) = false).
    { apply orb_false_iff. split; apply Z.eqb_neq; lia. }
    rewrite Hf'. exact IH.
Qed.

Lemma attributes_complete (a : attribute) : In a attributes.
Proof. destruct a; simpl; tauto. Qed.

(** C3: the [n+1] tests of an aging event run one after the other, each on
    the world the previous one left. A test on world [w] rolls
    [max(1, (vigor-10)//2 + 1)] dice for the current vigor, with faces in
    1..6 read from the random source; it passes (consuming only those draws)
    exactly when one face is 5 or 6, and otherwise goes on to
    [_lose_random_attribute]. That one draws an index below the length of
    the duplicate-free list of exactly the attributes currently above 3 and
    decrements the attribute at that index, or does nothing when the list is
    empty. *)
Theorem vigor_test_sequential (n : nat) (w : world) :
  let c := chr w in
  let k := Z.to_nat (Z.max 1 ((vigor c - 10) / 2 + 1)) in
  let faces := map (fun p => 1 + tape w p mod 6) (seq (cursor w) k) in
  let avail := List.filter (fun a => 3 <? getattr c a) attributes in
  let i := Z.to_nat (tape w (cursor w) mod Z.of_nat (length avail)) in
  repeat_M (S n) _make_vigor_test w =
    repeat_M n _make_vigor_test (snd (_make_vigor_test w)) /\
  Forall (fun f => 1 <= f <= 6) faces /\
  _make_vigor_test w =
    (if existsb (fun f => (f =? 5) || (f =? 6)) faces
     then (tt, advance_by w k)
     else _lose_random_attribute (advance_by w k)) /\
  NoDup avail /\
  (forall a, In a avail <-> 3 < getattr c a) /\
  _lose_random_attribute w =
    match avail with
    | [] => (tt, w)
    | _ => let a := nth i avail Vigor in
           (tt, mkWorld (setattr c a (getattr c a - 1)) (tape w) (S (cursor w)))
    end /\
  (avail <> [] -> (i < length avail)%nat).
Proof.
  cbv zeta.
  assert (Hfaces : forall k : nat,
            Forall (fun f => 1 <= f <= 6) (map (fun p => 1 + tape w p mod 6) (seq (cursor w) k))).
  { intros k. apply Forall_forall. intros f Hf.
    apply list_elem_of_In, in_map_iff in Hf as [p [<- _]].
    pose proof (Z.mod_pos_bound (tape w p) 6). lia. }
  assert (Hlt : List.filter (fun a => 3 <? getattr (chr w) a) attributes <> [] ->
                lt (Z.to_nat (tape w (cursor w) mod
                   Z.of_nat (length (List.filter (fun a => 3 <? getattr (chr w) a) attributes))))
                   (length (List.filter (fun a => 3 <? getattr (chr w) a) attributes))).
  { intros Hne. apply (randbelow_lt w).
    destruct (List.filter _ _); [congruence | simpl; lia]. }
  split; [|split; [|split; [|split; [|split; [|split]]]]].
  - simpl. unfold bind. destruct (_make_vigor_test w) as [[] w']. reflexivity.
  - apply Hfaces.
  - rewrite vigor_test_spec. cbv zeta. unfold dice_for_vigor, get_attribute_modifier.
    pose proof (filter_five_nil _ (Hfaces (Z.to_nat (Z.max 1 ((vigor (chr w) - 10) / 2 + 1))))) as Hiff.
    destruct (List.filter _ (map _ _)) eqn:E.
    + rewrite (proj1 Hiff eq_refl). reflexivity.
    + destruct (existsb _ _); [reflexivity|].
      pose proof (proj2 Hiff eq_refl). discriminate.
  - unfold attributes. simpl.
    destruct (3 <? vigor (chr w)), (3 <? finesse (chr w)), (3 <? smarts (chr w));
      apply (bool_decide_unpack _); reflexivity.
  - intros a. rewrite filter_In, Z.ltb_lt. pose proof (attributes_complete a). tauto.
  - rewrite lose_spec.
    destruct (List.filter _ _) as [|x l] eqn:E; [reflexivity|].
    cbv beta iota zeta.
    assert (Hi := Hlt ltac:(discriminate)).
    match goal with
    | |- context [(x :: l) !! ?j] =>
        destruct ((x :: l) !! j) as [a|] eqn:Ea;
        [rewrite (nth_lookup_Some _ _ _ _ Ea); reflexivity
        | apply lookup_ge_None_1 in Ea; simpl in Ea, Hi; lia]
    end.
  - exact Hlt.
Qed.

Lemma vigor_test_sequential_witness :
  (List.filter (fun a => 3 <? getattr (chr sample_world) a) attributes <> [] ->
   lt (Z.to_nat (tape sample_world (cursor sample_world) mod
         Z.of_nat (length (List.filter (fun a => 3 <? getattr (chr sample_world) a) attributes))))
      (length (List.filter (fun a => 3 <? getattr (chr sample_world) a) attributes))) /\
  List.filter (fun a => 3 <? getattr (chr sample_world) a) attributes <> [].
Proof.
  split; [|discriminate].
  exact (proj2 (proj2 (proj2 (proj2 (proj2 (proj2 (vigor_test_sequential 2 sample_world))))))).
Defined.

(** * Skill allocation *)





(** * Further properties of [dice.py] *)

Lemma sum_list_app (l1 l2 : list Z) : sum_list (l1 ++ l2) = sum_list l1 + sum_list l2.
Proof. induction l1; simpl; lia. Qed.

Lemma sum_list_bounds (lo hi : Z) (l : list Z) :
  Forall (fun x => lo <= x <= hi) l ->
  lo * Z.of_nat (length l) <= sum_list l <= hi * Z.of_nat (length l).
Proof.
  induction 1 as [|x l Hx Hl IH]; simpl; [lia|]. rewrite Nat2Z.inj_succ. lia.
Qed.

Lemma Forall_firstn_Z (P : Z -> Prop) (n : nat) (l : list Z) :
  Forall P l -> Forall P (firstn n l).
Proof.
  revert l. induction n; intros [|x l] H; simpl; try constructor.
  - inversion H; assumption.
  - apply IHn. inversion H; assumption.
Qed.

Lemma sort_desc_Forall (P : Z -> Prop) (l : list Z) :
  Forall P l -> Forall P (sort_desc l).
Proof.
  intros H. apply (Permutation_Forall (sort_desc_perm l)), H.
Qed.

Lemma map_nth_seq (l : list Z) :
  map (fun i => nth i l 0) (seq 0 (length l)) = l.
Proof.
  induction l as [|x l IH]; [reflexivity|].
  simpl. rewrite <- seq_shift, map_map. simpl. f_equal. exact IH.
Qed.

(** The shape of a successful [roll_dice] on a valid configuration. *)
Lemma roll_dice_ok (num_dice sides drop_lowest drop_highest modifier : Z)
  (roll_die : nat -> Z) :
  0 < num_dice -> 0 < sides -> 0 <= drop_lowest -> 0 <= drop_highest ->
  drop_lowest + drop_highest < num_dice ->
  let all := map roll_die (seq 0 (Z.to_nat num_dice)) in
  let kept := firstn (Z.to_nat (num_dice - drop_lowest - drop_highest))
                (skipn (Z.to_nat drop_highest) (sort_desc all)) in
  roll_dice num_dice sides drop_lowest drop_highest modifier roll_die =
  inr (mkRollResult (sum_list kept + modifier) all kept
         (firstn (Z.to_nat drop_highest) (sort_desc all) ++
          skipn (Z.to_nat (num_dice - drop_lowest)) (sort_desc all))
         (sum_list kept) modifier).
Proof.
  intros Hn Hs Hl Hh Hsum. cbv zeta. unfold roll_dice.
  destruct (Z.leb_spec num_dice 0); [lia|].
  destruct (Z.leb_spec sides 0); [lia|].
  destruct (Z.leb_spec num_dice (drop_lowest + drop_highest)); [lia|].
  set (all := map roll_die (seq 0 (Z.to_nat num_dice))).
  assert (Hlen : Z.of_nat (length (sort_desc all)) = num_dice).
  { rewrite length_sort_desc. subst all. rewrite length_map, length_seq. lia. }
  assert (Hkept :
    (if 0 <? drop_lowest
     then py_slice (sort_desc all) drop_highest
            (Some (Z.of_nat (length (sort_desc all)) - drop_lowest))
     else py_slice (sort_desc all) drop_highest None) =
    firstn (Z.to_nat (num_dice - drop_lowest - drop_highest))
      (skipn (Z.to_nat drop_highest) (sort_desc all))).
  { unfold py_slice, py_norm. rewrite Hlen.
    destruct (Z.ltb_spec 0 drop_lowest);
      destruct (Z.ltb_spec drop_highest 0); try lia;
      try (destruct (Z.ltb_spec (num_dice - drop_lowest) 0); try lia);
      f_equal; f_equal; lia. }
  assert (Hdrop :
    (if 0 <? drop_highest then py_slice (sort_desc all) 0 (Some drop_highest) else []) ++
    (if 0 <? drop_lowest then py_slice (sort_desc all) (- drop_lowest) None else []) =
    firstn (Z.to_nat drop_highest) (sort_desc all) ++
    skipn (Z.to_nat (num_dice - drop_lowest)) (sort_desc all)).
  { unfold py_slice, py_norm. rewrite Hlen. f_equal.
    - destruct (Z.ltb_spec 0 drop_highest).
      + destruct (Z.ltb_spec 0 0); [lia|]. destruct (Z.ltb_spec drop_highest 0); [lia|].
        rewrite (Z.min_l 0 num_dice), (Z.min_l drop_highest num_dice), Z.sub_0_r by lia.
        reflexivity.
      + replace (Z.to_nat drop_highest) with O by lia. reflexivity.
    - destruct (Z.ltb_spec 0 drop_lowest).
      + destruct (Z.ltb_spec (- drop_lowest) 0); [|lia].
        rewrite firstn_all2; [f_equal; lia|].
        rewrite length_skipn. lia.
      + rewrite skipn_all2; [reflexivity|]. lia. }
  rewrite Hkept, Hdrop. reflexivity.
Qed.

Lemma list_M_randint_sides (sides : Z) (k : nat) (w : world) :
  list_M k (randint 1 sides) w =
  (map (fun p => 1 + tape w p mod sides) (seq (cursor w) k), advance_by w k).
Proof.
  revert w. induction k as [|k IH]; intros w.
  - unfold advance_by. destruct w; simpl. rewrite Nat.add_0_r. reflexivity.
  - simpl list_M. unfold bind at 1. unfold randint at 1.
    replace (sides - 1 + 1) with sides by lia.
    unfold bind, ret. rewrite IH.
    unfold advance_by, advance. simpl. do 3 f_equal. lia.
Qed.

(** A valid [roll_plain_dice] reads its faces off the next [num_dice]
    draws. *)
Lemma roll_plain_dice_ok (num_dice sides drop_lowest drop_highest modifier : Z)
  (w : world) :
  0 < num_dice -> 0 < sides -> drop_lowest + drop_highest < num_dice ->
  let faces := map (fun p => 1 + tape w p mod sides)
                 (seq (cursor w) (Z.to_nat num_dice)) in
  roll_plain_dice num_dice sides drop_lowest drop_highest modifier w =
  (roll_dice num_dice sides drop_lowest drop_highest modifier (fun i => nth i faces 0),
   advance_by w (Z.to_nat num_dice)).
Proof.
  intros Hn Hs Hsum. cbv zeta. unfold roll_plain_dice.
  destruct (Z.leb_spec num_dice 0); [lia|].
  destruct (Z.leb_spec sides 0); [lia|].
  destruct (Z.leb_spec num_dice (drop_lowest + drop_highest)); [lia|].
  cbn [orb]. unfold bind. cbv beta. rewrite list_M_randint_sides. reflexivity.
Qed.

Lemma faces_in_range (sides : Z) (w : world) (k : nat) :
  0 < sides ->
  Forall (fun f => 1 <= f <= sides) (map (fun p => 1 + tape w p mod sides) (seq (cursor w) k)).
Proof.
  intros Hs. apply Forall_forall. intros f Hf.
  apply list_elem_of_In, in_map_iff in Hf as [p [<- _]].
  pose proof (Z.mod_pos_bound (tape w p) sides Hs). lia.
Qed.

Lemma map_nth_faces (sides : Z) (w : world) (n : Z) :
  0 <= n ->
  map (fun i => nth i (map (fun p => 1 + tape w p mod sides) (seq (cursor w) (Z.to_nat n))) 0)
      (seq 0 (Z.to_nat n)) =
  map (fun p => 1 + tape w p mod sides) (seq (cursor w) (Z.to_nat n)).
Proof.
  intros Hn.
  set (faces := map (fun p => 1 + tape w p mod sides) (seq (cursor w) (Z.to_nat n))).
  assert (Hl : length faces = Z.to_nat n) by (subst faces; rewrite length_map, length_seq; reflexivity).
  rewrite <- Hl. apply map_nth_seq.
Qed.

(** A die that does not explode returns one face: a face of the die, and
    above [reroll_below] when that is set (the first draw otherwise). *)
Theorem roll_single_die_plain_face (fuel : nat) (sides : Z) (reroll_below : option Z)
  (draws : nat -> Z) (v : Z) :
  (forall k, 1 <= draws k <= sides) ->
  _roll_single_die fuel sides reroll_below false draws = Some v ->
  1 <= v <= sides /\
  match reroll_below with Some t => t < v | None => v = draws O end.
Proof.
  intros Hd. unfold _roll_single_die.
  destruct reroll_below as [t|].
  - generalize O as k. induction fuel as [|fuel IH]; intros k H; simpl in H; [discriminate|].
    destruct (Z.leb_spec (draws k) t); [apply (IH (S k) H)|].
    inversion H; subst. specialize (Hd k). lia.
  - destruct fuel; simpl; intros H; [discriminate|].
    inversion H; subst. specialize (Hd O). lia.
Qed.

Lemma roll_single_die_plain_face_witness :
  (forall k : nat, 1 <= (fun k => Z.of_nat (k mod 6) + 1) k <= 6) /\
  _roll_single_die 10 6 (Some 2) false (fun k => Z.of_nat (k mod 6) + 1) = Some 3 /\
  (1 <= 3 <= 6 /\ 2 < 3).
Proof.
  assert (Hd : forall k : nat, 1 <= (fun k => Z.of_nat (k mod 6) + 1) k <= 6).
  { intros k. simpl. pose proof (Nat.mod_upper_bound k 6). lia. }
  assert (He : _roll_single_die 10 6 (Some 2) false (fun k => Z.of_nat (k mod 6) + 1) = Some 3)
    by reflexivity.
  split; [exact Hd | split; [exact He|]].
  exact (roll_single_die_plain_face 10 6 (Some 2) (fun k => Z.of_nat (k mod 6) + 1) 3 Hd He).
Defined.

(** An exploding die with at least two sides never totals a multiple of
    [sides]: every maximal face adds [sides] and triggers another draw, the
    last face is below [sides]. *)
Theorem roll_single_die_exploding_total (fuel : nat) (sides : Z)
  (reroll_below : option Z) (draws : nat -> Z) (v : Z) :
  2 <= sides ->
  (forall k, 1 <= draws k <= sides) ->
  _roll_single_die fuel sides reroll_below true draws = Some v ->
  1 <= v /\ 1 <= v mod sides <= sides - 1.
Proof.
  intros Hs Hd. unfold _roll_single_die.
  assert (Hgen : forall fuel k total, 0 <= total -> total mod sides = 0 ->
            roll_single_die_loop fuel sides reroll_below true draws k total = Some v ->
            1 <= v /\ 1 <= v mod sides <= sides - 1).
  { induction fuel0 as [|fuel0 IH]; intros k total Ht Hm H; simpl in H; [discriminate|].
    destruct (match reroll_below with Some t => draws k <=? t | None => false end).
    - exact (IH (S k) total Ht Hm H).
    - specialize (Hd k).
      destruct (Z.eqb_spec (draws k) sides); simpl in H.
      + apply (IH (S k) (total + draws k)); [lia| |exact H].
        rewrite Z.add_mod, Hm, e, Z.mod_same by lia. reflexivity.
      + inversion H; subst.
        rewrite Z.add_mod, Hm, Z.add_0_l, !(Z.mod_small (draws k)) by lia. lia. }
  apply Hgen; [lia | apply Z.mod_0_l; lia].
Qed.

Lemma roll_single_die_exploding_total_witness :
  2 <= 6 /\ (forall k : nat, 1 <= (fun k => 6 - Z.of_nat (k mod 6)) k <= 6) /\
  _roll_single_die 10 6 None true (fun k => 6 - Z.of_nat (k mod 6)) = Some 11 /\
  (1 <= 11 /\ 1 <= 11 mod 6 <= 6 - 1).
Proof.
  assert (Hd : forall k : nat, 1 <= (fun k => 6 - Z.of_nat (k mod 6)) k <= 6).
  { intros k. simpl. pose proof (Nat.mod_upper_bound k 6). lia. }
  assert (He : _roll_single_die 10 6 None true (fun k => 6 - Z.of_nat (k mod 6)) = Some 11)
    by reflexivity.
  split; [lia | split; [exact Hd | split; [exact He|]]].
  apply (roll_single_die_exploding_total 10 6 None (fun k => 6 - Z.of_nat (k mod 6)) 11);
    [lia | exact Hd | exact He].
Defined.

Lemma sorted_app_ge (a b : list Z) :
  Sorted Z.ge (a ++ b) -> forall x y, In x a -> In y b -> y <= x.
Proof.
  intros H. apply Sorted_StronglySorted in H; [|intros ? ? ?; lia].
  induction a as [|z a IH]; simpl; [tauto|].
  inversion H as [|? ? Hs Hall]; subst.
  intros x y [<-|Hx] Hy.
  - rewrite List.Forall_forall in Hall.
    specialize (Hall y (in_or_app _ _ _ (or_intror Hy))). lia.
  - exact (IH Hs x y Hx Hy).
Qed.

(** [roll_dice] on a valid configuration with nonnegative drop counts
    splits the dice: [dropped_rolls] is the [drop_highest] highest then the
    [drop_lowest] lowest totals, dropped and kept dice together are the
    rolled dice, every kept die is at most every dropped-high one and at
    least every dropped-low one, and [result = total_before_modifier +
    modifier] with [total_before_modifier] the sum of the kept dice. *)
Theorem roll_dice_partition (num_dice sides drop_lowest drop_highest modifier : Z)
  (roll_die : nat -> Z) :
  0 < num_dice -> 0 < sides -> 0 <= drop_lowest -> 0 <= drop_highest ->
  drop_lowest + drop_highest < num_dice ->
  exists r hi lo,
    roll_dice num_dice sides drop_lowest drop_highest modifier roll_die = inr r /\
    dropped_rolls r = hi ++ lo /\
    Z.of_nat (length hi) = drop_highest /\ Z.of_nat (length lo) = drop_lowest /\
    Permutation (rolls r) (dropped_rolls r ++ kept_rolls r) /\
    (forall x y, In x hi -> In y (kept_rolls r) -> y <= x) /\
    (forall y z, In y (kept_rolls r) -> In z lo -> z <= y) /\
    total_before_modifier r = sum_list (kept_rolls r) /\
    result r = total_before_modifier r + modifier.
Proof.
  intros Hn Hs Hl Hh Hsum.
  rewrite (roll_dice_ok num_dice sides drop_lowest drop_highest modifier roll_die) by lia.
  set (all := map roll_die (seq 0 (Z.to_nat num_dice))).
  set (sorted := sort_desc all).
  set (hi := firstn (Z.to_nat drop_highest) sorted).
  set (mid := firstn (Z.to_nat (num_dice - drop_lowest - drop_highest))
                (skipn (Z.to_nat drop_highest) sorted)).
  set (lo := skipn (Z.to_nat (num_dice - drop_lowest)) sorted).
  assert (Hlen : length sorted = Z.to_nat num_dice).
  { subst sorted all. rewrite length_sort_desc, length_map, length_seq. reflexivity. }
  assert (Hsplit : sorted = hi ++ mid ++ lo).
  { subst hi mid lo.
    replace (Z.to_nat (num_dice - drop_lowest))
      with (Z.to_nat (num_dice - drop_lowest - drop_highest) + Z.to_nat drop_highest)%nat
      by lia.
    rewrite <- List.skipn_skipn, !List.firstn_skipn. reflexivity. }
  assert (Hsorted : Sorted Z.ge (hi ++ mid ++ lo)) by (rewrite <- Hsplit; apply sort_desc_sorted).
  exists (mkRollResult (sum_list mid + modifier) all mid (hi ++ lo) (sum_list mid) modifier), hi, lo.
  simpl. split; [reflexivity|]. split; [reflexivity|].
  split; [subst hi; rewrite length_firstn; lia|].
  split; [subst lo; rewrite length_skipn; lia|].
  split.
  { rewrite (sort_desc_perm all). fold sorted. rewrite Hsplit.
    rewrite <- app_assoc. apply Permutation_app_head.
    apply Permutation_app_comm. }
  split.
  { intros x y Hx Hy. apply (sorted_app_ge hi (mid ++ lo) Hsorted); [exact Hx|].
    apply in_or_app. left. exact Hy. }
  split.
  { intros y z Hy Hz. rewrite app_assoc in Hsorted.
    apply (sorted_app_ge (hi ++ mid) lo Hsorted); [|exact Hz].
    apply in_or_app. right. exact Hy. }
  split; reflexivity.
Qed.

Lemma roll_dice_partition_witness :
  (0 < 5 /\ 0 < 6 /\ 0 <= 1 /\ 0 <= 2 /\ 1 + 2 < 5) /\
  exists r hi lo,
    roll_dice 5 6 1 2 3 (fun i => Z.of_nat i + 1) = inr r /\
    dropped_rolls r = hi ++ lo /\
    Z.of_nat (length hi) = 2 /\ Z.of_nat (length lo) = 1 /\
    Permutation (rolls r) (dropped_rolls r ++ kept_rolls r) /\
    (forall x y, In x hi -> In y (kept_rolls r) -> y <= x) /\
    (forall y z, In y (kept_rolls r) -> In z lo -> z <= y) /\
    total_before_modifier r = sum_list (kept_rolls r) /\
    result r = total_before_modifier r + 3.
Proof.
  split; [lia|].
  apply (roll_dice_partition 5 6 1 2 3 (fun i => Z.of_nat i + 1)); lia.
Defined.

Lemma sum_list_perm (l l' : list Z) : Permutation l l' -> sum_list l = sum_list l'.
Proof. induction 1; simpl; lia. Qed.

Lemma roll_plain_dice_result (num_dice sides drop_lowest drop_highest modifier : Z)
  (w : world) :
  0 < num_dice -> 0 < sides -> 0 <= drop_lowest -> 0 <= drop_highest ->
  drop_lowest + drop_highest < num_dice ->
  fst (roll_plain_dice num_dice sides drop_lowest drop_highest modifier w) =
  inr (let all := next_faces w sides (Z.to_nat num_dice) in
       let kept := firstn (Z.to_nat (num_dice - drop_lowest - drop_highest))
                     (skipn (Z.to_nat drop_highest) (sort_desc all)) in
       mkRollResult (sum_list kept + modifier) all kept
         (firstn (Z.to_nat drop_highest) (sort_desc all) ++
          skipn (Z.to_nat (num_dice - drop_lowest)) (sort_desc all))
         (sum_list kept) modifier) /\
  snd (roll_plain_dice num_dice sides drop_lowest drop_highest modifier w) =
  advance_by w (Z.to_nat num_dice).
Proof.
  intros Hn Hs Hl Hh Hsum.
  rewrite roll_plain_dice_ok by lia. cbv zeta. simpl fst. simpl snd.
  rewrite roll_dice_ok by lia. cbv zeta.
  rewrite map_nth_faces by lia. split; reflexivity.
Qed.

Lemma faces_len (w : world) (sides : Z) (k : nat) : length (next_faces w sides k) = k.
Proof. unfold next_faces. rewrite length_map, length_seq. reflexivity. Qed.

Lemma next_faces_range (w : world) (sides : Z) (k : nat) :
  0 < sides -> Forall (fun f => 1 <= f <= sides) (next_faces w sides k).
Proof. apply faces_in_range. Qed.

Lemma roll_4d6_value (w : world) :
  roll_4d6_drop_lowest w = (sum_list (firstn 3 (sort_desc (next_faces w 6 4))), advance_by w 4).
Proof.
  unfold roll_4d6_drop_lowest, bind, ret.
  destruct (roll_plain_dice_result 4 6 1 0 0 w) as [H1 H2]; try lia.
  destruct (roll_plain_dice 4 6 1 0 0 w) as [r w']. simpl in H1, H2. subst.
  simpl result_of. rewrite Z.add_0_r. reflexivity.
Qed.

Lemma roll_3d6_value (w : world) :
  roll_3d6 w = (sum_list (next_faces w 6 3), advance_by w 3).
Proof.
  unfold roll_3d6, bind, ret.
  destruct (roll_plain_dice_result 3 6 0 0 0 w) as [H1 H2]; try lia.
  destruct (roll_plain_dice 3 6 0 0 0 w) as [r w']. cbn [fst snd] in H1, H2. subst.
  cbn [result_of result]. rewrite Z.add_0_r. f_equal.
  change (Z.to_nat (3 - 0 - 0)) with 3%nat. change (Z.to_nat 0) with 0%nat.
  rewrite skipn_O, firstn_all2
    by (rewrite length_sort_desc, faces_len; simpl; lia).
  symmetry. apply sum_list_perm, sort_desc_perm.
Qed.
Lemma top3_of_4 (a b c d : Z) :
  sum_list (firstn 3 (sort_desc [a; b; c; d])) = a + b + c + d - Z.min (Z.min a b) (Z.min c d).
Proof.
  simpl.
  repeat (match goal with |- context [?x <? ?y] => destruct (Z.ltb_spec x y) end; simpl);
  lia.
Qed.

(** [roll_4d6_drop_lowest] takes the next four d6 faces and returns their
    sum minus the lowest one, a value between 3 and 18. *)
Theorem roll_4d6_drop_lowest_drops_min (w : world) :
  let d := fun i : nat => 1 + tape w (i + cursor w)%nat mod 6 in
  roll_4d6_drop_lowest w =
    (d 0%nat + d 1%nat + d 2%nat + d 3%nat
       - Z.min (Z.min (d 0%nat) (d 1%nat)) (Z.min (d 2%nat) (d 3%nat)),
     advance_by w 4) /\
  3 <= fst (roll_4d6_drop_lowest w) <= 18.
Proof.
  intros d. rewrite roll_4d6_value.
  replace (next_faces w 6 4) with [d 0%nat; d 1%nat; d 2%nat; d 3%nat] by reflexivity.
  rewrite top3_of_4. split; [reflexivity|]. cbn [fst].
  assert (Hd : forall i, 1 <= d i <= 6).
  { intros i. unfold d. pose proof (Z.mod_pos_bound (tape w (i + cursor w)) 6). lia. }
  pose proof (Hd 0%nat). pose proof (Hd 1%nat). pose proof (Hd 2%nat). pose proof (Hd 3%nat).
  lia.
Qed.

(** [roll_3d6] sums the next three d6 faces (between 3 and 18) and
    [roll_starting_money] is ten times that same sum, taking the same three
    draws: a multiple of 10 between 30 and 180. *)
Theorem roll_3d6_and_starting_money (w : world) :
  let d := fun i : nat => 1 + tape w (i + cursor w)%nat mod 6 in
  roll_3d6 w = (d 0%nat + d 1%nat + d 2%nat, advance_by w 3) /\
  roll_starting_money w = ((d 0%nat + d 1%nat + d 2%nat) * 10, advance_by w 3) /\
  3 <= d 0%nat + d 1%nat + d 2%nat <= 18.
Proof.
  intros d.
  assert (H3 : roll_3d6 w = (d 0%nat + d 1%nat + d 2%nat, advance_by w 3)).
  { rewrite roll_3d6_value.
    replace (next_faces w 6 3) with [d 0%nat; d 1%nat; d 2%nat] by reflexivity.
    simpl. f_equal. lia. }
  split; [exact H3|]. split.
  - unfold roll_starting_money, roll_3d6, bind, ret in *.
    destruct (roll_plain_dice 3 6 0 0 0 w) as [r w']. inversion H3. reflexivity.
  - assert (Hd : forall i, 1 <= d i <= 6).
    { intros i. unfold d. pose proof (Z.mod_pos_bound (tape w (i + cursor w)) 6). lia. }
    pose proof (Hd 0%nat). pose proof (Hd 1%nat). pose proof (Hd 2%nat). lia.
Qed.

Lemma sort_desc_two (a b : Z) : sort_desc [a; b] = [Z.max a b; Z.min a b].
Proof.
  simpl. destruct (Z.ltb_spec b a); f_equal; [lia| f_equal; lia | lia | f_equal; lia].
Qed.

(** [roll_with_advantage] returns the higher and [roll_with_disadvantage]
    the lower of the next two d20 faces; both take two draws. *)
Theorem roll_advantage_disadvantage (w : world) :
  let d := fun i : nat => 1 + tape w (i + cursor w)%nat mod 20 in
  roll_with_advantage w = (Z.max (d 0%nat) (d 1%nat), advance_by w 2) /\
  roll_with_disadvantage w = (Z.min (d 0%nat) (d 1%nat), advance_by w 2).
Proof.
  intros d. split.
  - unfold roll_with_advantage, bind, ret.
    destruct (roll_plain_dice_result 2 20 1 0 0 w) as [H1 H2]; try lia.
    destruct (roll_plain_dice 2 20 1 0 0 w) as [r w']. cbn [fst snd] in H1, H2. subst.
    cbn [result_of result].
    replace (next_faces w 20 (Z.to_nat 2)) with [d 0%nat; d 1%nat] by reflexivity.
    rewrite sort_desc_two. simpl. f_equal. lia.
  - unfold roll_with_disadvantage, bind, ret.
    destruct (roll_plain_dice_result 2 20 0 1 0 w) as [H1 H2]; try lia.
    destruct (roll_plain_dice 2 20 0 1 0 w) as [r w']. cbn [fst snd] in H1, H2. subst.
    cbn [result_of result].
    replace (next_faces w 20 (Z.to_nat 2)) with [d 0%nat; d 1%nat] by reflexivity.
    rewrite sort_desc_two. simpl. f_equal. lia.
Qed.

(** [AttributeRoller.roll_4d6_drop_lowest] and [AttributeRoller.roll_3d6]
    of the character-creation module compute, from the same random source,
    the same value as [dice.roll_4d6_drop_lowest] and [dice.roll_3d6], and
    take the same draws. *)
Theorem attribute_roller_matches_dice (w : world) :
  attribute_roller_4d6_drop_lowest w = roll_4d6_drop_lowest w /\
  attribute_roller_3d6 w = roll_3d6 w.
Proof.
  split.
  - rewrite roll_4d6_value. unfold attribute_roller_4d6_drop_lowest, bind, ret.
    rewrite list_M_randint_sides. reflexivity.
  - rewrite roll_3d6_value. unfold attribute_roller_3d6, bind, ret.
    rewrite list_M_randint_sides. reflexivity.
Qed.

(** The heroic die of [roll_attribute_set_heroic] (reroll until a roll of
    at least 3) behaves as [dice._roll_single_die(6, reroll_below=2)] on the
    same draws; with the draws on a d6 every value it returns is in 3..6. *)
Theorem roll_heroic_die_is_reroll_below_2 (fuel : nat) (draws : nat -> Z) :
  roll_heroic_die_loop fuel draws O = _roll_single_die fuel 6 (Some 2) false draws /\
  ((forall k, 1 <= draws k <= 6) ->
   forall v, roll_heroic_die_loop fuel draws O = Some v -> 3 <= v <= 6).
Proof.
  assert (Heq : forall fuel k,
    roll_heroic_die_loop fuel draws k = roll_single_die_loop fuel 6 (Some 2) false draws k 0).
  { induction fuel0 as [|fuel0 IH]; intros k; [reflexivity|]. simpl.
    destruct (Z.leb_spec 3 (draws k)); destruct (Z.leb_spec (draws k) 2); try lia.
    - reflexivity.
    - apply IH. }
  split; [apply Heq|].
  intros Hd v Hv. unfold roll_heroic_die_loop in Hv. fold roll_heroic_die_loop in Hv.
  revert Hv. generalize O. induction fuel as [|fuel IH]; intros k Hv; simpl in Hv; [discriminate|].
  destruct (Z.leb_spec 3 (draws k)).
  - inversion Hv; subst. specialize (Hd k). lia.
  - exact (IH _ Hv).
Qed.
Lemma roll_starting_money_value (w : world) :
  roll_starting_money w = (sum_list (next_faces w 6 3) * 10, advance_by w 3).
Proof.
  pose proof (roll_3d6_value w) as H3.
  unfold roll_starting_money, roll_3d6, bind, ret in *.
  destruct (roll_plain_dice 3 6 0 0 0 w) as [r w']. injection H3 as Hr Hw. rewrite Hr, Hw. reflexivity.
Qed.

Lemma roll_attributes_state (w : world) :
  roll_attributes w =
  (tt, mkWorld
    (calculate_derived_stats
      (set_dollars
        (setattr (setattr (setattr (chr w) Vigor
           (sum_list (firstn 3 (sort_desc (next_faces w 6 4)))))
           Finesse (sum_list (firstn 3 (sort_desc (next_faces (advance_by w 4) 6 4)))))
           Smarts (sum_list (firstn 3 (sort_desc (next_faces (advance_by w 8) 6 4)))))
        (sum_list (next_faces (advance_by w 12) 6 3) * 10)))
    (tape w) (cursor w + 15)).
Proof.
  unfold roll_attributes, modify_self, get_self, put_self, bind, ret. cbv beta iota zeta.
  rewrite roll_4d6_value. cbv beta iota zeta.
  rewrite roll_4d6_value. cbv beta iota zeta.
  rewrite roll_4d6_value. cbv beta iota zeta.
  rewrite roll_starting_money_value. cbv beta iota zeta.
  unfold next_faces, advance_by. cbn [chr tape cursor].
  rewrite <- !Nat.add_assoc. reflexivity.
Qed.

Lemma setattr_mk n ag l e d sp v0 f0 s0 sk hp mhp mv inv bs bb wp ar lc a v :
  setattr (mkCharacter n ag l e d sp v0 f0 s0 sk hp mhp mv inv bs bb wp ar lc) a v =
  mkCharacter n ag l e d sp (match a with Vigor => v | _ => v0 end)
    (match a with Finesse => v | _ => f0 end) (match a with Smarts => v | _ => s0 end)
    sk hp mhp mv inv bs bb wp ar lc.
Proof. reflexivity. Qed.

Lemma set_dollars_mk n ag l e d sp v0 f0 s0 sk hp mhp mv inv bs bb wp ar lc d' :
  set_dollars (mkCharacter n ag l e d sp v0 f0 s0 sk hp mhp mv inv bs bb wp ar lc) d' =
  mkCharacter n ag l e d' sp v0 f0 s0 sk hp mhp mv inv bs bb wp ar lc.
Proof. reflexivity. Qed.

Lemma calculate_derived_stats_mk n ag l e d sp v0 f0 s0 sk hp mhp mv inv bs bb wp ar lc :
  calculate_derived_stats (mkCharacter n ag l e d sp v0 f0 s0 sk hp mhp mv inv bs bb wp ar lc) =
  mkCharacter n ag l e d sp v0 f0 s0 sk ((v0 + f0 + s0) / 3) ((v0 + f0 + s0) / 3)
    ((v0 + f0) / 2) inv v0 bb wp ar lc.
Proof. reflexivity. Qed.

Lemma top3_range (w : world) :
  3 <= sum_list (firstn 3 (sort_desc (next_faces w 6 4))) <= 18.
Proof.
  set (d := fun i : nat => 1 + tape w (i + cursor w)%nat mod 6).
  replace (next_faces w 6 4) with [d 0%nat; d 1%nat; d 2%nat; d 3%nat] by reflexivity.
  rewrite top3_of_4.
  assert (Hd : forall i, 1 <= d i <= 6).
  { intros i. unfold d. pose proof (Z.mod_pos_bound (tape w (i + cursor w)) 6). lia. }
  pose proof (Hd 0%nat). pose proof (Hd 1%nat). pose proof (Hd 2%nat). pose proof (Hd 3%nat).
  lia.
Qed.

Lemma money_range (w : world) :
  30 <= sum_list (next_faces w 6 3) * 10 <= 180 /\ (sum_list (next_faces w 6 3) * 10) mod 10 = 0.
Proof.
  pose proof (sum_list_bounds 1 6 (next_faces w 6 3) (next_faces_range w 6 3 ltac:(lia))) as H.
  rewrite faces_len in H. split; [lia|]. apply Z.mod_mul. lia.
Qed.

(** [roll_attributes] leaves every attribute in 3..18 and the dollars a
    multiple of 10 in 30..180, recomputes the derived stats from the new
    attributes, takes fifteen draws, and changes nothing else of the
    character. *)
Theorem roll_attributes_result (w : world) :
  let c := chr w in
  let w' := snd (roll_attributes w) in
  let c' := chr w' in
  attrs_in_range c' /\ 30 <= dollars c' <= 180 /\ dollars c' mod 10 = 0 /\
  max_hit_points c' = (vigor c' + finesse c' + smarts c') / 3 /\
  hit_points c' = max_hit_points c' /\
  movement c' = (vigor c' + finesse c') / 2 /\
  base_inventory_slots c' = vigor c' /\
  cursor w' = (cursor w + 15)%nat /\
  name c' = name c /\ age c' = age c /\ level c' = level c /\
  experience c' = experience c /\ skill_points c' = skill_points c /\
  skills c' = skills c /\ inventory c' = inventory c /\
  bonus_inventory_slots c' = bonus_inventory_slots c /\
  weapon c' = weapon c /\ armor c' = armor c /\ location c' = location c.
Proof.
  cbv zeta. rewrite roll_attributes_state. cbn [snd chr cursor].
  destruct (money_range (advance_by w 12)) as [Hm1 Hm2].
  pose proof (top3_range w) as Hv. pose proof (top3_range (advance_by w 4)) as Hf.
  pose proof (top3_range (advance_by w 8)) as Hs.
  remember (sum_list (next_faces (advance_by w 12) 6 3) * 10) as d eqn:Ed.
  remember (sum_list (firstn 3 (sort_desc (next_faces w 6 4)))) as v eqn:Ev.
  remember (sum_list (firstn 3 (sort_desc (next_faces (advance_by w 4) 6 4)))) as f eqn:Ef.
  remember (sum_list (firstn 3 (sort_desc (next_faces (advance_by w 8) 6 4)))) as s eqn:Es.
  clear Ed Ev Ef Es.
  destruct (chr w). rewrite !setattr_mk, set_dollars_mk, calculate_derived_stats_mk.
  cbn [name age level experience dollars skill_points vigor finesse smarts skills
       hit_points max_hit_points movement inventory base_inventory_slots
       bonus_inventory_slots weapon armor location].
  split; [intros []; cbn [getattr vigor finesse smarts]; lia|].
  repeat split; assumption || reflexivity || lia.
Qed.

Lemma roll_heroic_die_is_reroll_below_2_witness :
  (forall k, 1 <= (fun k => Z.of_nat (k mod 6) + 1) k <= 6) /\
  roll_heroic_die_loop 10 (fun k => Z.of_nat (k mod 6) + 1) O = Some 3 /\ 3 <= 3 <= 6.
Proof.
  assert (Hd : forall k, 1 <= (fun k => Z.of_nat (k mod 6) + 1) k <= 6).
  { intros k. simpl. pose proof (Nat.mod_upper_bound k 6). lia. }
  assert (He : roll_heroic_die_loop 10 (fun k => Z.of_nat (k mod 6) + 1) O = Some 3)
    by reflexivity.
  split; [exact Hd | split; [exact He|]].
  exact (proj2 (roll_heroic_die_is_reroll_below_2 10 (fun k => Z.of_nat (k mod 6) + 1)) Hd 3 He).
Defined.

(** * Further properties of the inventory methods *)

Lemma used_slots_insert (c : character) (m : gmap string Z) (k : string) (v : Z) :
  get_used_inventory_slots (set_inventory c (<[k:=v]> m)) =
  get_used_inventory_slots (set_inventory c (delete k m)) + _get_item_slot_usage k * v.
Proof.
  unfold get_used_inventory_slots. cbn [inventory set_inventory].
  rewrite <- insert_delete_eq.
  rewrite map_fold_insert_L; [reflexivity | intros; lia | apply lookup_delete_eq].
Qed.

Lemma used_slots_lookup (c : character) (k : string) (q : Z) :
  inventory c !! k = Some q ->
  get_used_inventory_slots c =
  get_used_inventory_slots (set_inventory c (delete k (inventory c))) + _get_item_slot_usage k * q.
Proof.
  intros Hk. unfold get_used_inventory_slots. cbn [inventory set_inventory].
  rewrite (map_fold_delete_L _ _ k q (inventory c)); [reflexivity | intros; lia | exact Hk].
Qed.

Lemma used_slots_set_inventory_self (c : character) :
  get_used_inventory_slots (set_inventory c (inventory c)) = get_used_inventory_slots c.
Proof. reflexivity. Qed.

Lemma used_slots_bonus (c : character) (b : Z) :
  get_used_inventory_slots (set_bonus_inventory_slots c b) = get_used_inventory_slots c.
Proof. reflexivity. Qed.

(** A successful [add_item] uses exactly [_get_item_slot_usage(item_name) *
    quantity] more slots and never leaves the available slots negative; a
    refused one changes nothing. *)
Theorem add_item_slot_accounting (c : character) (item_name : string) (quantity : Z)
  (ok : bool) (c' : character) :
  add_item c item_name quantity = (ok, c') ->
  if ok
  then get_used_inventory_slots c' =
         get_used_inventory_slots c + _get_item_slot_usage item_name * quantity /\
       0 <= get_available_inventory_slots c'
  else c' = c.
Proof.
  unfold add_item. destruct (can_add_item c item_name quantity) eqn:Hcan; cbn [negb].
  2:{ intros H. inversion H. reflexivity. }
  unfold can_add_item in Hcan. apply Z.leb_le in Hcan.
  unfold get_available_inventory_slots in *.
  set (c1 := match inventory c !! item_name with
             | Some q => set_inventory c (<[item_name := q + quantity]> (inventory c))
             | None => set_inventory c (<[item_name := quantity]> (inventory c))
             end).
  assert (Hu1 : get_used_inventory_slots c1 =
                get_used_inventory_slots c + _get_item_slot_usage item_name * quantity).
  { subst c1. destruct (inventory c !! item_name) as [q|] eqn:E.
    - rewrite used_slots_insert, (used_slots_lookup c item_name q E). lia.
    - rewrite used_slots_insert, delete_id by exact E.
      rewrite used_slots_set_inventory_self. reflexivity. }
  assert (Ht1 : get_total_inventory_slots c1 = get_total_inventory_slots c)
    by (subst c1; destruct (inventory c !! item_name); reflexivity).
  intros H. inversion H as [[Hok Hc']]. clear H.
  unfold get_total_inventory_slots in *.
  destruct (str_contains "backpack" (str_lower item_name));
  [|destruct (str_contains "saddlebags" (str_lower item_name))];
  rewrite ?used_slots_bonus; cbn [bonus_inventory_slots base_inventory_slots set_bonus_inventory_slots];
  split; lia.
Qed.

Lemma add_item_slot_accounting_witness :
  add_item sample_character "Rifle" 2 = (true, snd (add_item sample_character "Rifle" 2)) /\
  get_used_inventory_slots (snd (add_item sample_character "Rifle" 2)) =
    get_used_inventory_slots sample_character + _get_item_slot_usage "Rifle" * 2 /\
  0 <= get_available_inventory_slots (snd (add_item sample_character "Rifle" 2)).
Proof.
  assert (H : add_item sample_character "Rifle" 2 = (true, snd (add_item sample_character "Rifle" 2)))
    by reflexivity.
  split; [exact H|].
  exact (add_item_slot_accounting sample_character "Rifle" 2 true _ H).
Defined.

(** [remove_item] succeeds exactly when the item is held in at least the
    requested quantity; it then frees [_get_item_slot_usage(item_name) *
    quantity] slots and leaves [held - quantity] of the item, dropping the
    entry when none is left. A refused removal changes nothing. *)
Theorem remove_item_slot_accounting (c : character) (item_name : string) (quantity : Z)
  (ok : bool) (c' : character) :
  remove_item c item_name quantity = (ok, c') ->
  if ok
  then exists held, inventory c !! item_name = Some held /\ quantity <= held /\
       get_used_inventory_slots c' =
         get_used_inventory_slots c - _get_item_slot_usage item_name * quantity /\
       inventory c' !! item_name = (if held =? quantity then None else Some (held - quantity))
  else c' = c /\ (forall held, inventory c !! item_name = Some held -> held < quantity).
Proof.
  unfold remove_item. destruct (inventory c !! item_name) as [held|] eqn:E.
  2:{ intros H. inversion H. split; [reflexivity | discriminate]. }
  destruct (Z.ltb_spec held quantity) as [Hlt|Hge].
  { intros H. inversion H. split; [reflexivity|]. intros h Eh. congruence. }
  set (c1 := if str_contains "backpack" (str_lower item_name)
             then set_bonus_inventory_slots c (bonus_inventory_slots c - 5 * quantity)
             else if str_contains "saddlebags" (str_lower item_name)
             then set_bonus_inventory_slots c (bonus_inventory_slots c - 8 * quantity)
             else c).
  assert (Hinv : inventory c1 = inventory c)
    by (subst c1; repeat destruct (str_contains _ _); reflexivity).
  assert (Hu : get_used_inventory_slots c1 = get_used_inventory_slots c)
    by (subst c1; repeat destruct (str_contains _ _); reflexivity).
  assert (Hu0 : get_used_inventory_slots c =
                get_used_inventory_slots (set_inventory c1 (delete item_name (inventory c1))) +
                _get_item_slot_usage item_name * held).
  { rewrite (used_slots_lookup c item_name held E), Hinv. reflexivity. }
  destruct (Z.leb_spec (held - quantity) 0) as [Hle|Hgt]; intros Hr; inversion Hr; subst; clear Hr;
    exists held; (split; [reflexivity|]); (split; [lia|]).
  - cbn [inventory set_inventory]. rewrite lookup_delete_eq.
    destruct (Z.eqb_spec held quantity); [|lia]. split; [|reflexivity].
    rewrite Hu0. subst. lia.
  - cbn [inventory set_inventory]. rewrite lookup_insert_eq.
    destruct (Z.eqb_spec held quantity); [lia|]. split; [|reflexivity].
    rewrite used_slots_insert, Hu0. lia.
Qed.

Lemma remove_item_slot_accounting_witness :
  let c := snd (add_item sample_character "Pistol" 3) in
  remove_item c "Pistol" 1 = (true, snd (remove_item c "Pistol" 1)) /\
  exists held, inventory c !! "Pistol"%string = Some held /\ 1 <= held /\
    get_used_inventory_slots (snd (remove_item c "Pistol" 1)) =
      get_used_inventory_slots c - _get_item_slot_usage "Pistol" * 1 /\
    inventory (snd (remove_item c "Pistol" 1)) !! "Pistol"%string =
      (if held =? 1 then None else Some (held - 1)).
Proof.
  intros c.
  assert (H : remove_item c "Pistol" 1 = (true, snd (remove_item c "Pistol" 1))) by reflexivity.
  split; [exact H|].
  exact (remove_item_slot_accounting c "Pistol" 1 true _ H).
Defined.

(** Adding a positive quantity of an item and removing the same quantity
    gives back the character exactly, for an item that is not a backpack or
    saddlebags, and for a single container, provided the held quantities
    were positive. *)
Theorem add_remove_round_trip (c : character) (item_name : string) (quantity : Z)
  (c1 : character) :
  is_container item_name = false \/ quantity = 1 ->
  1 <= quantity ->
  (forall k v, inventory c !! k = Some v -> 0 < v) ->
  add_item c item_name quantity = (true, c1) ->
  remove_item c1 item_name quantity = (true, c).
Proof.
  intros Hkind Hq Hpos Hadd. unfold add_item in Hadd.
  destruct (can_add_item c item_name quantity); cbn [negb] in Hadd; [|discriminate].
  injection Hadd as <-. unfold is_container in Hkind.
  destruct c as [n a l e d sp v f s sk hp mhp mv inv bs bb wp ar lc]; cbn in *.
  destruct (inv !! item_name) as [h|] eqn:E.
  - assert (Hh : 0 < h) by exact (Hpos _ _ E).
    destruct (str_contains "backpack" (str_lower item_name)) eqn:Eb;
    [|destruct (str_contains "saddlebags" (str_lower item_name)) eqn:Es];
    unfold remove_item; cbn; rewrite ?Eb, ?Es; rewrite lookup_insert_eq;
    destruct (Z.ltb_spec (h + quantity) quantity); try lia;
    destruct (Z.leb_spec (h + quantity - quantity) 0); try lia;
    unfold set_inventory, set_bonus_inventory_slots; cbn;
    rewrite insert_insert_eq; replace (h + quantity - quantity) with h by lia;
    rewrite insert_id by exact E; try reflexivity;
    (destruct Hkind as [Hk|Hk]; [discriminate | subst; f_equal; f_equal; lia]).
  - destruct (str_contains "backpack" (str_lower item_name)) eqn:Eb;
    [|destruct (str_contains "saddlebags" (str_lower item_name)) eqn:Es];
    unfold remove_item; cbn; rewrite ?Eb, ?Es; rewrite lookup_insert_eq;
    destruct (Z.ltb_spec quantity quantity); try lia;
    replace (quantity - quantity) with 0 by lia;
    unfold set_inventory, set_bonus_inventory_slots; cbn;
    rewrite delete_insert_id by exact E; try reflexivity;
    (destruct Hkind as [Hk|Hk]; [discriminate | subst; f_equal; f_equal; lia]).
Qed.

Lemma add_remove_round_trip_witness :
  let c := snd (add_item sample_character "Rope" 2) in
  (is_container "Canteen" = false \/ 3 = 1) /\ 1 <= 3 /\
  (forall k v, inventory c !! k = Some v -> 0 < v) /\
  add_item c "Canteen" 3 = (true, snd (add_item c "Canteen" 3)) /\
  remove_item (snd (add_item c "Canteen" 3)) "Canteen" 3 = (true, c).
Proof.
  intros c.
  assert (Hk : is_container "Canteen" = false \/ 3 = 1) by (left; reflexivity).
  assert (Hpos : forall k v, inventory c !! k = Some v -> 0 < v).
  { intros k v Hv. assert (Hc : inventory c = {[ "Rope"%string := 2 ]}) by reflexivity.
    rewrite Hc in Hv. apply lookup_singleton_Some in Hv as [_ <-]. lia. }
  assert (Ha : add_item c "Canteen" 3 = (true, snd (add_item c "Canteen" 3))) by reflexivity.
  split; [exact Hk|]. split; [lia|]. split; [exact Hpos|]. split; [exact Ha|].
  exact (add_remove_round_trip c "Canteen" 3 _ Hk ltac:(lia) Hpos Ha).
Defined.

(** * Further properties of saving and loading *)

(** Loading what [to_dict] saved, into any character object, gives back the
    saved character; only a character saved with [movement = 0] comes back
    with its derived stats recomputed, by the legacy check of [from_dict]. *)
Theorem from_dict_to_dict (self c : character) :
  from_dict self (to_dict c) =
  Some (if movement c =? 0 then calculate_derived_stats c else c).
Proof.
  destruct c as [n a l e d sp v f s sk hp mhp mv inv bs bb wp ar lc]. reflexivity.
Qed.

Lemma counts_fold (l : list string) (inv : gmap string Z) (k : string) :
  fold_left (fun inv item =>
               match inv !! item with
               | Some q => <[item := q + 1]> inv
               | None => <[item := 1]> inv
               end) l inv !! k =
  match inv !! k, count_occ string_dec l k with
  | Some q, n => Some (q + Z.of_nat n)
  | None, O => None
  | None, n => Some (Z.of_nat n)
  end.
Proof.
  revert inv. induction l as [|x l IH]; intros inv; simpl.
  - destruct (inv !! k); [f_equal; lia | reflexivity].
  - rewrite IH. destruct (string_dec x k) as [<-|Hne].
    + destruct (inv !! x) as [q|] eqn:E; rewrite lookup_insert_eq;
      destruct (count_occ string_dec l x); f_equal; lia.
    + destruct (inv !! x); rewrite lookup_insert_ne by congruence; reflexivity.
Qed.

(** An old save file whose [inventory] is a list of item names loads as
    [to_dict]'s data would, with the inventory dict mapping each listed item
    to the number of times it occurs in the list. *)
Theorem from_dict_legacy_inventory (self c : character) (old_inventory : list string) :
  let data := map (fun kv => if String.eqb (fst kv) "inventory"
                             then ("inventory"%string, PyStrList old_inventory) else kv)
                  (to_dict c) in
  exists c', from_dict self data = Some c' /\
    c' = set_inventory (if movement c =? 0 then calculate_derived_stats c else c)
           (list_to_counts old_inventory) /\
    forall k, inventory c' !! k =
      match count_occ string_dec old_inventory k with
      | O => None
      | n => Some (Z.of_nat n)
      end.
Proof.
  destruct c as [n a l e d sp v f s sk hp mhp mv inv bs bb wp ar lc].
  eexists. split; [|split; [reflexivity|]].
  { unfold from_dict.
    match goal with
    | |- match fold_left ?g ?data ?init with _ => _ end = _ =>
        assert (Hfold : fold_left g data init =
                  Some (mkCharacter n a l e d sp v f s sk hp mhp mv (inventory self) bs bb wp ar lc,
                        Some old_inventory)) by reflexivity;
        rewrite Hfold
    end.
    cbn [movement]. destruct (mv =? 0); reflexivity. }
  intros k. destruct (mv =? 0); cbn [inventory set_inventory];
  unfold list_to_counts; rewrite counts_fold; rewrite lookup_empty; reflexivity.
Qed.

(** * Further properties of [apply_age_effects] *)

Lemma age_frame_setattr (c : character) (a : attribute) (v : Z) :
  age_frame (setattr c a v) = age_frame c /\ skill_points (setattr c a v) = skill_points c.
Proof. destruct a; split; reflexivity. Qed.

Lemma boost_frame fr sp : preserves (frame_is fr sp) _apply_random_attribute_boost.
Proof.
  intros w H. rewrite boost_spec.
  destruct (List.filter _ _) as [|x l]; [exact H|].
  cbv beta iota zeta.
  match goal with
  | |- context [(x :: l) !! ?i] => destruct ((x :: l) !! i) as [a|]; [|exact H]
  end.
  unfold frame_is in *. cbn [chr snd]. rewrite (proj1 (age_frame_setattr _ _ _)),
    (proj2 (age_frame_setattr _ _ _)). exact H.
Qed.

Lemma lose_frame fr sp : preserves (frame_is fr sp) _lose_random_attribute.
Proof.
  intros w H. rewrite lose_spec.
  destruct (List.filter _ _) as [|x l]; [exact H|].
  cbv beta iota zeta.
  match goal with
  | |- context [(x :: l) !! ?i] => destruct ((x :: l) !! i) as [a|]; [|exact H]
  end.
  unfold frame_is in *. cbn [chr snd]. rewrite (proj1 (age_frame_setattr _ _ _)),
    (proj2 (age_frame_setattr _ _ _)). exact H.
Qed.

Lemma vigor_test_frame fr sp : preserves (frame_is fr sp) _make_vigor_test.
Proof.
  intros w H. rewrite vigor_test_spec. cbv zeta.
  destruct (List.filter _ _).
  - apply lose_frame. exact H.
  - exact H.
Qed.

Lemma preserves_after (P : world -> Prop) (m k : M unit) (w : world) :
  P (snd (m w)) -> preserves P k -> P (snd ((m ;;; k) w)).
Proof.
  intros Hm Hk. unfold bind. destruct (m w) as [[] w']. apply Hk, Hm.
Qed.

(** [apply_age_effects] changes no field but the attributes, the skill
    points and the derived stats, and adds exactly the age bracket's skill
    points (none outside ages 14 to 57): vigor tests and boosts never touch
    the skill points, the name, the age, the money, the skills or the
    inventory. *)
Theorem apply_age_effects_frame (w : world) :
  let c := chr w in
  let c' := chr (snd (apply_age_effects w)) in
  age_frame c' = age_frame c /\
  skill_points c' =
    skill_points c +
    (if (14 <=? age c) && (age c <=? 57)
     then match lookup_age_entry age_table (age c) with
          | Some e => entry_skill_points e
          | None => 0
          end
     else 0).
Proof.
  cbv zeta.
  destruct (lookup_age_entry age_table (age (chr w))) as [e|] eqn:He.
  - destruct (Z.leb_spec 14 (age (chr w))); [destruct (Z.leb_spec (age (chr w)) 57)|].
    + rewrite (apply_age_effects_in_range w e) by (auto; lia). cbn [andb].
      apply (preserves_after
               (frame_is (age_frame (chr w)) (skill_points (chr w) + entry_skill_points e))).
      * split; reflexivity.
      * repeat apply preserves_seq; auto using boost_frame, vigor_test_frame with preserves.
        intros w' [H1 H2]. unfold frame_is. unfold modify_self, bind, get_self, put_self.
        cbn [snd chr]. rewrite <- H1, <- H2. destruct (chr w'); split; reflexivity.
    + unfold apply_age_effects, bind, get_self.
      destruct (Z.leb_spec 14 (age (chr w))); [|lia].
      destruct (Z.leb_spec (age (chr w)) 57); [lia|].
      simpl. split; [reflexivity | lia].
    + unfold apply_age_effects, bind, get_self.
      destruct (Z.leb_spec 14 (age (chr w))); [lia|].
      simpl. split; [reflexivity | lia].
  - rewrite (apply_age_effects_out_of_range w He).
    cbn [snd]. split; [reflexivity|].
    destruct ((14 <=? age (chr w)) && (age (chr w) <=? 57)); lia.
Qed.

(** * Further properties of [allocate_skill_points] *)

Lemma total_levels_insert (sk : gmap string Z) (k : string) (v : Z) :
  total_levels (<[k:=v]> sk) = total_levels sk - default 0 (sk !! k) + v.
Proof.
  unfold total_levels. rewrite <- insert_delete_eq.
  rewrite map_fold_insert_L; [| intros; lia | apply lookup_delete_eq].
  destruct (sk !! k) as [q|] eqn:E; simpl.
  - rewrite (map_fold_delete_L _ _ k q sk); [lia | intros; lia | exact E].
  - rewrite delete_id by exact E. lia.
Qed.

(** Whatever the user types, the allocation only raises, one level per
    point, levels of skills on the menu: the points spent plus the levels
    gained stay constant, no level goes down, a skill off the menu is never
    touched, a nonnegative budget never goes negative, levels never pass 3,
    and no other field of the character changes. *)
Theorem allocate_skill_points_invariants (skills_list : list string)
  (inputs : list user_input) (c : character) :
  let c' := alloc_char (allocate_skill_points skills_list inputs c) in
  c' = set_skills c (skills c') (skill_points c') /\
  skill_points c' + total_levels (skills c') = skill_points c + total_levels (skills c) /\
  (forall k, default 0 (skills c !! k) <= default 0 (skills c' !! k)) /\
  (forall k, ~ In k skills_list -> skills c' !! k = skills c !! k) /\
  (0 <= skill_points c -> 0 <= skill_points c') /\
  ((forall k l, skills c !! k = Some l -> l <= 3) ->
   forall k l, skills c' !! k = Some l -> l <= 3).
Proof.
  cbv zeta.
  assert (Hloop : forall inputs c,
    let c' := alloc_char (allocation_loop skills_list inputs c) in
    c' = set_skills c (skills c') (skill_points c') /\
    skill_points c' + total_levels (skills c') = skill_points c + total_levels (skills c) /\
    (forall k, default 0 (skills c !! k) <= default 0 (skills c' !! k)) /\
    (forall k, ~ In k skills_list -> skills c' !! k = skills c !! k) /\
    (0 <= skill_points c -> 0 <= skill_points c') /\
    ((forall k l, skills c !! k = Some l -> l <= 3) ->
     forall k l, skills c' !! k = Some l -> l <= 3)).
  { assert (Hrefl : forall c,
      c = set_skills c (skills c) (skill_points c) /\
      skill_points c + total_levels (skills c) = skill_points c + total_levels (skills c) /\
      (forall k, default 0 (skills c !! k) <= default 0 (skills c !! k)) /\
      (forall k, ~ In k skills_list -> skills c !! k = skills c !! k) /\
      (0 <= skill_points c -> 0 <= skill_points c) /\
      ((forall k l, skills c !! k = Some l -> l <= 3) ->
       forall k l, skills c !! k = Some l -> l <= 3))
      by (intros c0; split; [destruct c0; reflexivity|]; repeat split; auto; lia).
    induction inputs0 as [|inp inputs' IH]; intros c0; cbv zeta; simpl allocation_loop.
    - destruct (negb _); apply Hrefl.
    - destruct (Z.ltb_spec 0 (skill_points c0)) as [Hsp|Hsp]; cbn [negb];
        [|apply Hrefl].
      destruct inp as [| choice | |]; [apply Hrefl| |apply IH|apply Hrefl].
      destruct (choice =? 0).
      { apply IH. }
      destruct ((1 <=? choice) && (choice <=? Z.of_nat (length skills_list))); [|apply IH].
      destruct (skills_list !! Z.to_nat (choice - 1)) as [key|] eqn:Ekey; [|apply IH].
      destruct (Z.leb_spec 3 (default 0 (skills c0 !! key))) as [Hmax|Hlow]; [apply IH|].
      set (c1 := set_skills c0 (<[key := default 0 (skills c0 !! key) + 1]> (skills c0))
                   (skill_points c0 - 1)).
      destruct (IH c1) as (Hs & Hcons & Hmono & Hoff & Hnn & Hcap).
      set (c' := alloc_char (allocation_loop skills_list inputs' c1)) in *.
      assert (Hin : In key skills_list)
        by (apply list_elem_of_In; eapply list_elem_of_lookup_2; exact Ekey).
      repeat split.
      + rewrite Hs at 1. destruct c0; reflexivity.
      + rewrite Hcons. subst c1. cbn [skills skill_points set_skills].
        rewrite total_levels_insert. lia.
      + intros k. specialize (Hmono k). subst c1. cbn [skills set_skills] in Hmono.
        destruct (string_dec k key) as [->|Hne].
        * rewrite lookup_insert_eq in Hmono. simpl in Hmono. lia.
        * rewrite lookup_insert_ne in Hmono by congruence. exact Hmono.
      + intros k Hk. rewrite Hoff by exact Hk. subst c1. cbn [skills set_skills].
        apply lookup_insert_ne. congruence.
      + intros _. apply Hnn. subst c1. cbn [skill_points set_skills]. lia.
      + intros H3. apply Hcap. intros k l Hl. subst c1. cbn [skills set_skills] in Hl.
        destruct (string_dec k key) as [->|Hne].
        * rewrite lookup_insert_eq in Hl. injection Hl as <-. lia.
        * rewrite lookup_insert_ne in Hl by congruence. exact (H3 k l Hl). }
  unfold allocate_skill_points.
  destruct (skill_points c <=? 0).
  - cbn [alloc_char]. destruct c; repeat split; auto; lia.
  - apply Hloop.
Qed.
